(** * cmaputil: bound search, linear fits and perceptual linearisation

    A shallow embedding of the numerical core of [cmaputil/cmaputil.py]:
    [_valid_rgb], [_find_J_bounds], [find_J_bounds], [_find_distance],
    [_correct_J], [lin_fit], [correct_J] and [make_linear], and of the
    helpers around it: [convert], [get_rgb_jab], [_adjust_bounds],
    [bound], [normalize], [_rnt], [overlay_colormap] and
    [create_isoluminant_map].

    Conventions of the embedding.
    - Python floats are modelled by exact rationals ([Q]); the values a
      colour conversion can produce additionally include the two
      infinities and NaN ([pyfloat]), because [_valid_rgb] tests for them.
    - A [3 x N] numpy array is a list of its [N] columns [(J, a, b)].
    - The lightness of a scan is kept in lowest terms after every step
      ([Qadd]); this does not change its value and keeps the scans
      computable.
    - [while] loops take a fuel argument; [OutOfFuel] means that the fuel
      ran out before the loop exited.
    - The external routines ([colorspacious.cspace_convert], [math.sqrt])
      are section variables; [np.polyfit] and [np.linalg.lstsq] on the
      design matrix [[x, 1]] are given by the closed form of the
      least-squares line.
    - [find_J_bounds] is the function on two-dimensional arrays;
      [find_J_bounds_data] adds the one-dimensional ones, which the loop
      of lines 807-809 of [correct_J] hands it (the case the source marks
      "possible bug here" at line 156).  [correct_J] is the body of the
      function from line 811 on, with the arrays [low] and [high] of that
      loop as arguments; [correct_J_call] is the whole function.
    - The converter is handed a scalar lightness and either two scalars
      or two whole rows; of the latter it can make no array, and the call
      raises ([point_array]).
    - An image is the list of its entries, row by row.
    - [create_isoluminant_map] is embedded from line 87 on, for the array
      that [get_rgb_jab] returned. *)

From Stdlib Require Import QArith Qabs Qround Lia Lqa ZArith Ascii.
From stdpp Require Import base option list gmap strings.

Local Open Scope Q_scope.

(** ** Python values *)

(** Exceptions raised by the modelled code. *)
Inductive exn : Type := ValueError | TypeError | IndexError | LinAlgError.

(** The outcome of running a piece of code with a given fuel: a returned
    value, a raised exception, or a loop that has not exited when the fuel
    is used up. *)
Inductive result (A : Type) : Type :=
| Return (v : A)
| Raise (e : exn)
| OutOfFuel.
Arguments Return {A} v.
Arguments Raise {A} e.
Arguments OutOfFuel {A}.

Definition bind {A B : Type} (r : result A) (k : A -> result B) : result B :=
  match r with
  | Return v => k v
  | Raise e => Raise e
  | OutOfFuel => OutOfFuel
  end.

(** Whether a run returned a value. *)
Definition returned {A : Type} (r : result A) : bool :=
  match r with Return _ => true | _ => false end.

#[global] Instance result_ret : MRet result := @Return.
#[global] Instance result_bind : MBind result := fun A B k r => bind r k.

(** A float as the converter may produce it. *)
Inductive pyfloat : Type :=
| Fin (q : Q)
| PInf
| NInf
| NaN.

(** The argument of the converter is either a scalar ([m[1, i]]) or a whole
    row ([m[1]]). *)
Inductive arg : Type :=
| Scalar (q : Q)
| Row (l : list Q).

(** The list [[j, a, b]] as an array of floats, the first thing the
    converter does with it ([np.asarray]): three scalars make an array of
    three floats; a scalar [j] beside rows has no array, and numpy raises
    [ValueError]. *)
Definition point_array (a b : arg) : result unit :=
  match a, b with
  | Scalar _, Scalar _ => Return tt
  | _, _ => Raise ValueError
  end.

(** What a Python function can hand back where a number is expected. *)
Inductive pyobj : Type :=
| PyFloat (x : Q)
| PyClass (e : exn).

(** ** Comparisons *)

Definition Qltb (x y : Q) : bool := negb (Qle_bool y x).
Definition Qgtb (x y : Q) : bool := Qltb y x.
Definition Qneqb (x y : Q) : bool := negb (Qeq_bool x y).

(** [np.isfinite] *)
Definition isfinite (x : pyfloat) : bool :=
  match x with Fin _ => true | _ => false end.

(** [x < y] for a float [x] and a finite [y]; NaN compares false. *)
Definition flt (x : pyfloat) (y : Q) : bool :=
  match x with
  | Fin q => Qltb q y
  | NInf => true
  | PInf | NaN => false
  end.

(** [x > y] for a float [x] and a finite [y]. *)
Definition fgt (x : pyfloat) (y : Q) : bool :=
  match x with
  | Fin q => Qgtb q y
  | PInf => true
  | NInf | NaN => false
  end.

(** [_valid_rgb(num, e=0.001)] *)
Definition _valid_rgb (num : pyfloat) (e : Q) : bool :=
  isfinite num && flt num (1 + e) && fgt num (- e).

Definition default_e : Q := 1 # 1000.

(** ** Builtins on numbers and lists *)

(** [x + y], in lowest terms. *)
Definition Qadd (x y : Q) : Q := Qred (x + y).

(** [max(x, y)] and [min(x, y)] of two numbers: Python keeps the first
    argument unless the second is strictly better. *)
Definition py_max2 (x y : Q) : Q := if Qgtb y x then y else x.
Definition py_min2 (x y : Q) : Q := if Qltb y x then y else x.

Fixpoint max_from (cur : Q) (l : list Q) : Q :=
  match l with
  | [] => cur
  | x :: l' => max_from (py_max2 cur x) l'
  end.

Fixpoint min_from (cur : Q) (l : list Q) : Q :=
  match l with
  | [] => cur
  | x :: l' => min_from (py_min2 cur x) l'
  end.

(** [max(l)] and [min(l)] ([np.max] alike); an empty argument raises
    [ValueError]. *)
Definition py_max (l : list Q) : result Q :=
  match l with
  | [] => Raise ValueError
  | x :: l' => Return (max_from x l')
  end.

Definition py_min (l : list Q) : result Q :=
  match l with
  | [] => Raise ValueError
  | x :: l' => Return (min_from x l')
  end.

Definition Qnat (n : nat) : Q := inject_Z (Z.of_nat n).

(** [range(n)] as numbers. *)
Definition arange (n : nat) : list Q := map Qnat (seq 0 n).

(** [np.linspace(start, stop, num)] *)
Definition linspace (start stop : Q) (num : nat) : list Q :=
  let step := (stop - start) / Qnat (num - 1) in
  map (fun i => start + Qnat i * step) (seq 0 num).

Definition Qsum (l : list Q) : Q := fold_right Qplus 0 l.

(** Elementwise [u - v] of two arrays of one length. *)
Definition vsub (u v : list Q) : list Q := zip_with Qminus u v.

(** ** Arrays of shape [3 x N] *)

Definition column : Type := Q * Q * Q.
Definition col_J (c : column) : Q := c.1.1.
Definition col_a (c : column) : Q := c.1.2.
Definition col_b (c : column) : Q := c.2.

Abbreviation ndarray := (list column).

(** [m.shape[1]] *)
Definition shape1 (m : ndarray) : nat := length m.

(** [m[0, :]], [m[1]] and [m[2]] *)
Definition row_J (m : ndarray) : list Q := map col_J m.
Definition row_a (m : ndarray) : list Q := map col_a m.
Definition row_b (m : ndarray) : list Q := map col_b m.

(** [m[0, :] = line] for a line of [m.shape[1]] values. *)
Definition set_row_J (m : ndarray) (line : list Q) : ndarray :=
  zip_with (fun v c => (v, col_a c, col_b c)) line m.

(** [m[1, i] = va; m[2, i] = vb]; an index outside the array raises
    [IndexError]. *)
Definition set_ab (m : ndarray) (i : nat) (va vb : Q) : result ndarray :=
  if (i <? shape1 m)%nat
  then Return (alter (fun c => (col_J c, va, vb)) i m)
  else Raise IndexError.

(** ** The heap of arrays *)

(** Arrays are mutable objects; the heap maps a reference to the array it
    holds.  A reference that holds nothing reads as the empty array. *)
Abbreviation heap := (gmap nat ndarray).

(** [np.copy(arr)] allocates a fresh array with the same contents. *)
Definition np_copy (h : heap) (r : nat) : heap * nat :=
  let r' := fresh (dom h) in
  (<[r' := h !!! r]> h, r').

(** ** Least squares *)

(** The least-squares line through the points [(x_i, y_i)], as
    [(slope, intercept)]. *)
Definition lstsq_line (x y : list Q) : Q * Q :=
  let n := Qnat (length x) in
  let sx := Qsum x in
  let sy := Qsum y in
  let sxx := Qsum (zip_with Qmult x x) in
  let sxy := Qsum (zip_with Qmult x y) in
  let slope := (n * sxy - sx * sy) / (n * sxx - sx * sx) in
  (slope, (sy - slope * sx) / n).

(** [np.polyfit(x, y, 1)] *)
Definition polyfit1 (x y : list Q) : result (Q * Q) :=
  if (length x =? length y)%nat
  then Return (lstsq_line x y)
  else Raise TypeError.

(** [lin_fit(y)]: [a] is the least-squares solution for the design matrix
    with columns [range(256)] and ones; [(a * x)[:, 0]] is the first
    coefficient times [range(256)]. *)
Definition lin_fit (y : list Q) : result (list Q) :=
  let x := arange 256 in
  if (length x =? length y)%nat
  then let a := lstsq_line x y in Return (map (fun xi => a.1 * xi) x)
  else Raise LinAlgError.

(** [np.interp(x, xp, fp)] at one point, for increasing [xp]; [x0], [f0]
    is the knot to the left of the remaining ones. *)
Fixpoint interp_from (xp fp : list Q) (x0 f0 x : Q) : Q :=
  match xp, fp with
  | x1 :: xp', f1 :: fp' =>
      if Qltb x x1
      then f0 + (x - x0) * ((f1 - f0) / (x1 - x0))
      else interp_from xp' fp' x1 f1 x
  | _, _ => f0
  end.

Definition interp1 (xp fp : list Q) (x : Q) : Q :=
  match xp, fp with
  | x0 :: xp', f0 :: fp' =>
      if Qle_bool x x0 then f0 else interp_from xp' fp' x0 f0 x
  | _, _ => 0
  end.

Definition np_interp (x xp fp : list Q) : result (list Q) :=
  if (length xp =? length fp)%nat && negb (length xp =? 0)%nat
  then Return (map (interp1 xp fp) x)
  else Raise ValueError.

(** [_correct_J(low, high, line, m)] *)
Definition _correct_J (low high line : list Q) (m : ndarray)
    : option ndarray :=
  let test_upper := List.filter (fun x => Qltb x 0) (vsub high line) in
  let test_lower := List.filter (fun x => Qltb x 0) (vsub line low) in
  if (length test_upper + length test_lower =? 0)%nat
  then Some (set_row_J m line)
  else None.

(** The candidate line of the max-range search. *)
Definition candidate (slope b : Q) : list Q :=
  map (fun x => (slope / 256) * x + b) (arange 256).

(** The inner [while b <= max_b] loop of [correct_J]. *)
Fixpoint b_loop (fuel : nat) (low high : list Q) (m : ndarray)
    (slope max_b delta_b b : Q) : result (option ndarray) :=
  match fuel with
  | O => OutOfFuel
  | S fuel' =>
      if Qle_bool b max_b then
        let line_fit := candidate slope b in
        match _correct_J low high line_fit m with
        | Some m2 => Return (Some m2)
        | None =>
            if Qgtb (List.last line_fit 0) (List.last high 0)
               || Qgtb (nth 0 line_fit 0) (nth 0 high 0)
            then b_loop fuel' low high m slope max_b delta_b 100
            else b_loop fuel' low high m slope max_b delta_b (b + delta_b)
        end
      else Return None
  end.

(** The outer [while slope != 0] loop of [correct_J]. *)
Fixpoint slope_loop (fuel : nat) (low high : list Q) (m : ndarray)
    (max_b delta_slope delta_b slope : Q) : result (option ndarray) :=
  match fuel with
  | O => OutOfFuel
  | S fuel' =>
      if Qneqb slope 0 then
        m2 ← b_loop fuel' low high m slope max_b delta_b (nth 0 low 0);
        match m2 with
        | Some _ => Return m2
        | None =>
            slope_loop fuel' low high m max_b delta_slope delta_b
              (slope + delta_slope)
        end
      else Return None
  end.

(** Whether method 1 of [correct_J] takes its branch
    [if max(line_fit) > 99]. *)
Definition clamp_branch (J : list Q) : bool :=
  match polyfit1 (arange 256) J with
  | Return (slope, b) =>
      match py_max (map (fun x => slope * x + b) (arange 256)) with
      | Return mx => Qgtb mx 99
      | _ => false
      end
  | _ => false
  end.

(** Method 1 of [correct_J]: the trajectory fitted to the existing one. *)
Definition fit_to_original (J : list Q) : result (list Q) :=
  '(slope, b) ← polyfit1 (arange 256) J;
  let line_fit := map (fun x => slope * x + b) (arange 256) in
  mx ← py_max line_fit;
  if Qgtb mx 99 then
    let temp := map (fun v => v - 99) J in
    lf ← lin_fit temp;
    lf' ← lin_fit temp;
    mx' ← py_max lf';
    let line_fit := map (fun v => v + (99 - mx')) lf in
    mn ← py_min line_fit;
    if Qltb mn 1 then
      if Qltb (nth 0 line_fit 0) (List.last line_fit 0)
      then Return (linspace 1 99 256)
      else Return (linspace 99 1 256)
    else Return line_fit
  else Return line_fit.

(** Lines 841-864 of [correct_J]: the nested search of method 2, from
    [max_b] on; the result is the second array returned. *)
Definition max_range_search (fuel : nat) (low high : list Q) (m : ndarray)
    (delta_slope delta_b slope : Q) : result (option ndarray) :=
  let max_b := py_max2 (nth 0 high 0) (List.last high 0) in
  slope_loop fuel low high m max_b delta_slope delta_b slope.

(** The body of [correct_J(m, name, delta_slope, delta_b)] from line 811
    on.  [low] and [high] are the arrays that the loop of lines 807-809
    is to fill with the bounds of each column; the plots are left out.
    The whole function is [correct_J_call] below. *)
Definition correct_J (fuel : nat) (low high : list Q) (m : ndarray)
    (delta_slope delta_b : Q) : result (ndarray * option ndarray) :=
  line_fit ← fit_to_original (row_J m);
  let m1 := set_row_J m line_fit in
  if Qle_bool (nth 0 (row_J m) 0) (List.last (row_J m) 0) then
    let delta_slope := - Qabs delta_slope in
    let slope := List.last high 0 - nth 0 low 0 in
    if Qltb slope 0 then Return (m1, None)
    else
      m2 ← max_range_search fuel low high m delta_slope delta_b slope;
      Return (m1, m2)
  else
    let delta_slope := Qabs delta_slope in
    let slope := List.last low 0 - nth 0 high 0 in
    if Qgtb slope 0 then Return (m1, None)
    else
      m2 ← max_range_search fuel low high m delta_slope delta_b slope;
      Return (m1, m2).

(** ** The program over its external routines *)

Section Program.

(** [cspace_convert([j, a, b], CSPACE2, CSPACE1)]: the three sRGB1
    components of a J'a'b' colour. *)
Variable cspace_convert : Q -> arg -> arg -> pyfloat * pyfloat * pyfloat.

(** [math.sqrt] *)
Variable sqrt : Q -> Q.

(** [_find_J_bounds(j, a, b)] *)
Definition _find_J_bounds (j : Q) (a b : arg) : bool :=
  let test_rgb := cspace_convert j a b in
  if _valid_rgb test_rgb.1.1 default_e && _valid_rgb test_rgb.1.2 default_e
     && _valid_rgb test_rgb.2 default_e
  then true
  else false.

(** [while _find_J_bounds(J + 5, a, b): passed.append(J); J += 5] *)
Fixpoint coarse_run (fuel : nat) (a b : arg) (J : Q) (passed : list Q)
    : result (Q * list Q) :=
  match fuel with
  | O => OutOfFuel
  | S fuel' =>
      if _find_J_bounds (Qadd J 5) a b
      then coarse_run fuel' a b (Qadd J 5) (passed ++ [J])
      else Return (J, passed)
  end.

(** [while J <= maxJ: ...], the scan of one pair; returns [passed]. *)
Fixpoint scan_J (fuel : nat) (a b : arg) (maxJ J : Q) (passed : list Q)
    : result (list Q) :=
  match fuel with
  | O => OutOfFuel
  | S fuel' =>
      if Qle_bool J maxJ then
        let passed := if _find_J_bounds J a b then passed ++ [J] else passed in
        '(J, passed) ← coarse_run fuel' a b J passed;
        scan_J fuel' a b maxJ (Qadd J (1 # 10)) passed
      else Return passed
  end.

(** [for i in range(m.shape[1]): ...], the aggregation over the pairs. *)
Fixpoint pairs_loop (fuel : nat) (cols : ndarray) (minJ maxJ : Q)
    : result (Q * Q) :=
  match cols with
  | [] => Return (minJ, maxJ)
  | c :: rest =>
      let a := Scalar (col_a c) in
      let b := Scalar (col_b c) in
      passed ← scan_J fuel a b maxJ minJ [];
      if (0 <? length passed)%nat then
        lo ← py_min passed;
        hi ← py_max passed;
        pairs_loop fuel rest (py_max2 minJ lo) (py_min2 maxJ hi)
      else pairs_loop fuel rest minJ maxJ
  end.

(** [find_J_bounds(data, report=False)] for a two-dimensional array
    [data].  With three columns or fewer [a] and [b] are whole rows, and
    the first call [_find_J_bounds(0.5, a, b)] hands the converter the
    list [[0.5, a, b]], of which it can make no array ([point_array]):
    the scan of lines 179-187 is written here as it stands in the source,
    after the exception that keeps the code from reaching it. *)
Definition find_J_bounds (fuel : nat) (m : ndarray) : result (Q * Q) :=
  let minJ := 0 in
  let maxJ := 100 in
  if (3 <? shape1 m)%nat then pairs_loop fuel m minJ maxJ
  else
    let a := Row (row_a m) in
    let b := Row (row_b m) in
    _ ← point_array a b;
    passed ← scan_J fuel a b 100 (1 # 2) [];
    minJ ← py_min passed;
    maxJ ← py_max passed;
    Return (minJ, maxJ).

(** What [find_J_bounds] is handed as [data]: an array of two dimensions,
    or one of a single dimension such as a column [m[:, i]]. *)
Inductive nparray : Type :=
| Array2 (m : ndarray)
| Array1 (v : list Q).

(** [m.shape] *)
Definition shape (d : nparray) : list nat :=
  match d with
  | Array2 m => [3%nat; shape1 m]
  | Array1 v => [length v]
  end.

(** [t[i]] on a tuple: an index past its end raises [IndexError]. *)
Definition tuple_item (t : list nat) (i : nat) : result nat :=
  match t !! i with
  | Some n => Return n
  | None => Raise IndexError
  end.

(** [find_J_bounds(data, report=False)] for an array of either kind: line
    157 reads [m.shape[1]] before anything else is done with [m].  (The
    shape of a one-dimensional array has no entry 1, so the second case
    of the match is never reached.) *)
Definition find_J_bounds_data (fuel : nat) (d : nparray) : result (Q * Q) :=
  _ ← tuple_item (shape d) 1;
  match d with
  | Array2 m => find_J_bounds fuel m
  | Array1 _ => Raise IndexError
  end.

(** [m[:, i]] *)
Definition column_of (m : ndarray) (i : nat) : nparray :=
  let c := nth i m (0, 0, 0) in
  Array1 [col_J c; col_a c; col_b c].

(** Lines 807-809 of [correct_J]:
    [for i in range(l): l, h = find_J_bounds(m[:, i], report=False);
    low[i], high[i] = l, h]. *)
Fixpoint column_bounds (fuel : nat) (m : ndarray) (idx : list nat)
    (low high : list Q) : result (list Q * list Q) :=
  match idx with
  | [] => Return (low, high)
  | i :: idx' =>
      '(l, h) ← find_J_bounds_data fuel (column_of m i);
      column_bounds fuel m idx' (<[i := l]> low) (<[i := h]> high)
  end.

(** [correct_J(m, name, delta_slope, delta_b)] as a whole: lines 804-809,
    then the body from line 811 on ([correct_J] above). *)
Definition correct_J_call (fuel : nat) (m : ndarray) (delta_slope delta_b : Q)
    : result (ndarray * option ndarray) :=
  let l := shape1 m in
  '(low, high) ← column_bounds fuel m (seq 0 l) (repeat 0 l) (repeat 0 l);
  correct_J fuel low high m delta_slope delta_b.

(** [_find_distance(p1, p2)] *)
Definition _find_distance (p1 p2 : list Q) : pyobj :=
  if negb (length p1 =? length p2)%nat then PyClass ValueError
  else
    let val :=
      fold_left (fun val i => val + (nth i p2 0 - nth i p1 0) ^ 2)
        (seq 0 (length p1)) 0 in
    PyFloat (sqrt val).

(** Using the value of [_find_distance] in arithmetic: a class object is
    not a number. *)
Definition as_float (o : pyobj) : result Q :=
  match o with
  | PyFloat x => Return x
  | PyClass _ => Raise TypeError
  end.

(** The distance between the points [i] and [j] of the upsampled curve. *)
Definition segment (long_a long_b : list Q) (i j : nat) : pyobj :=
  _find_distance [nth i long_a 0; nth i long_b 0]
                 [nth j long_a 0; nth j long_b 0].

(** [for i in range(1, l): total_length += ...] *)
Fixpoint total_length_loop (long_a long_b : list Q) (idx : list nat)
    (total_length : Q) : result Q :=
  match idx with
  | [] => Return total_length
  | i :: idx' =>
      dist ← as_float (segment long_a long_b (i - 1) i);
      total_length_loop long_a long_b idx' (total_length + dist)
  end.

(** [while jab_ind < 254 and long_ind < l - 1: ...] on the array at
    reference [jab]. *)
Fixpoint walk (fuel : nat) (h : heap) (jab : nat) (long_a long_b : list Q)
    (l : nat) (d : Q) (jab_ind long_ind : nat) (d_this : Q) : result heap :=
  match fuel with
  | O => OutOfFuel
  | S fuel' =>
      if (jab_ind <? 254)%nat && (long_ind <? l - 1)%nat then
        test_d1 ← as_float (segment long_a long_b (long_ind - 1) long_ind);
        test_d2 ← as_float (segment long_a long_b long_ind (long_ind + 1));
        let d_this := d_this + test_d1 in
        let d_next := d_this + test_d2 in
        if Qltb (Qabs (d * Qnat (jab_ind + 1) - d_this))
                (Qabs (d * Qnat (jab_ind + 1) - d_next))
        then
          let jab_ind := (jab_ind + 1)%nat in
          arr ← set_ab (h !!! jab) jab_ind
                  (nth long_ind long_a 0) (nth long_ind long_b 0);
          walk fuel' (<[jab := arr]> h) jab long_a long_b l d
            jab_ind (long_ind + 1) d_this
        else
          walk fuel' h jab long_a long_b l d jab_ind (long_ind + 1) d_this
      else Return h
  end.

(** [make_linear(jab, l)] on the array at reference [jab]; returns the
    heap after the call and the reference of the returned array.  Every
    round of the walk increments [long_ind], so [l + 1] rounds are
    enough. *)
Definition make_linear (h : heap) (jab : nat) (l : nat)
    : result (heap * nat) :=
  let '(h, jab) := np_copy h jab in
  let old_x := arange 256 in
  let new_x := linspace 0 255 l in
  long_a ← np_interp new_x old_x (row_a (h !!! jab));
  long_b ← np_interp new_x old_x (row_b (h !!! jab));
  total_length ← total_length_loop long_a long_b (seq 1 (l - 1)) 0;
  let d := total_length / 255 in
  h ← walk (S l) h jab long_a long_b l d 0 1 0;
  Return (h, jab).

(** The aggregation of [find_J_bounds] as a trace: for every pair, the
    list [passed] that its scan recorded. *)
Fixpoint pairs_trace (fuel : nat) (cols : ndarray) (minJ maxJ : Q)
    : list (list Q) :=
  match cols with
  | [] => []
  | c :: rest =>
      match scan_J fuel (Scalar (col_a c)) (Scalar (col_b c)) maxJ minJ [] with
      | Return (x :: passed') =>
          (x :: passed') ::
          pairs_trace fuel rest (py_max2 minJ (min_from x passed'))
                                (py_min2 maxJ (max_from x passed'))
      | Return [] => [] :: pairs_trace fuel rest minJ maxJ
      | _ => []
      end
  end.

End Program.

(** ** Invariants *)

(** What the walk of [make_linear] keeps of the array [arr0] it started
    from: the length, the [J] row, and the first and the last column. *)
Definition kept (arr0 : ndarray) (h : heap) (jab : nat) : Prop :=
  exists out : ndarray,
    h !! jab = Some out /\ length out = 256%nat /\
    row_J out = row_J arr0 /\ out !! 0%nat = arr0 !! 0%nat /\
    out !! 255%nat = arr0 !! 255%nat.

(** ** Data of the examples *)

(** A converter under which no colour is displayable. *)
Definition convert_none (j : Q) (a b : arg) : pyfloat * pyfloat * pyfloat :=
  (Fin 2, Fin 2, Fin 2).

(** A converter under which the pair [(1, 0)] is displayable for
    [10 <= J <= 20], the pair [(2, 0)] for [50 <= J <= 60], and nothing
    else. *)
Definition convert_bands (j : Q) (a b : arg) : pyfloat * pyfloat * pyfloat :=
  let grey := (Fin (1 # 2), Fin (1 # 2), Fin (1 # 2)) in
  let out := (Fin 2, Fin (-1), NaN) in
  match a with
  | Scalar x =>
      if Qeq_bool x 1 && Qle_bool 10 j && Qle_bool j 20 then grey
      else if Qeq_bool x 2 && Qle_bool 50 j && Qle_bool j 60 then grey
      else out
  | Row _ => out
  end.

(** A converter under which every colour with [J <= 105] is displayable. *)
Definition convert_all (j : Q) (a b : arg) : pyfloat * pyfloat * pyfloat :=
  if Qle_bool j 105 then (Fin 0, Fin (1 # 2), Fin 1) else (Fin 2, Fin 2, Fin 2).

Definition pairs_none : ndarray := repeat (50, 1000, 1000) 4.
Definition pairs_disjoint : ndarray :=
  [(50, 1, 0); (50, 1, 0); (50, 2, 0); (50, 2, 0)].
Definition pairs_first : ndarray := repeat (50, 1, 0) 4.

(** A square root to three decimals, to run the examples. *)
Definition sqrt_milli (x : Q) : Q :=
  inject_Z (Z.sqrt (Qfloor (x * 1000000))) / 1000.

(** The constant trajectory of the scenario, with its bounds. *)
Definition jab_const10 : ndarray := repeat (10, 3, 4) 256.
Definition low5 : list Q := repeat 5 256.
Definition high90 : list Q := repeat 90 256.

(** A trajectory that rises from 0 to 100 in whole steps. *)
Definition jab_full : ndarray :=
  map (fun i => (Qnat (i * 100 / 255), Qnat i, - Qnat i)) (seq 0 256).

(** A heap that holds one array. *)
Definition heap_one : heap := {[ 7%nat := jab_full ]}.

(** ** The image and conversion helpers *)

(** The helpers also fail with [ZeroDivisionError]. *)
Inductive failure : Type :=
| ZeroDivisionError
| OverflowError
| Builtin (e : exn).

Inductive outcome (A : Type) : Type :=
| Value (v : A)
| Failure (f : failure).
Arguments Value {A} v.
Arguments Failure {A} f.

(** [bound(a, high, low)] on the entries of a float array:
    [new_array[new_array > high] = high], then
    [new_array[new_array < low] = low]. *)
Definition bound (a : list Q) (high low : Q) : list Q :=
  let new_array := map (fun x => if Qgtb x high then high else x) a in
  map (fun x => if Qltb x low then low else x) new_array.

(** [_adjust_bounds(a, minimum, maximum)] on the entries of a float
    array.  [np.max] and [np.min] of an empty array raise [ValueError];
    the quotient is one of Python floats, so a zero divisor raises. *)
Definition _adjust_bounds (a : list Q) (minimum maximum : Q)
    : outcome (list Q) :=
  let r := maximum - minimum in
  match py_max a, py_min a with
  | Return mx, Return mn =>
      if Qeq_bool (mx - mn) 0 then Failure ZeroDivisionError
      else
        let mult := r / (mx - mn) in
        let new_array := map (fun x => x * mult) a in
        match py_min new_array with
        | Return mn' => Value (map (fun x => x + (minimum - mn')) new_array)
        | _ => Failure (Builtin ValueError)
        end
  | _, _ => Failure (Builtin ValueError)
  end.

(** [x / y] on float arrays: numpy does not raise on a zero divisor. *)
Definition np_div (x y : Q) : pyfloat :=
  if Qeq_bool y 0 then
    if Qltb 0 x then PInf else if Qltb x 0 then NInf else NaN
  else Fin (x / y).

(** [np.average(a)] *)
Definition np_average (a : list Q) : Q := Qsum a / Qnat (length a).

(** [np.clip(x, lo, hi)] on one float. *)
Definition np_clip (lo hi : Q) (x : pyfloat) : pyfloat :=
  match x with
  | Fin q => Fin (if Qltb q lo then lo else if Qgtb q hi then hi else q)
  | PInf => Fin hi
  | NInf => Fin lo
  | NaN => NaN
  end.

(** A float that is NaN or lies in [[lo, hi]]: what [np.clip] hands
    back. *)
Definition clipped (lo hi : Q) (x : pyfloat) : Prop :=
  match x with
  | Fin q => lo <= q /\ q <= hi
  | NaN => True
  | PInf | NInf => False
  end.

(** A colour with float components, and [np.clip] on an array of them. *)
Definition colour : Type := pyfloat * pyfloat * pyfloat.

Definition clip_colour (lo hi : Q) (c : colour) : colour :=
  (np_clip lo hi c.1.1, np_clip lo hi c.1.2, np_clip lo hi c.2).

(** [CSPACE1] and [CSPACE2] *)
Definition CSPACE1 : string := "sRGB1".
Definition CSPACE2 : string := "CAM02-UCS".

(** [str.lower] *)
Definition lower_ascii (c : ascii) : ascii :=
  let n := nat_of_ascii c in
  if (65 <=? n)%nat && (n <=? 90)%nat then ascii_of_nat (n + 32) else c.

Fixpoint lower (s : string) : string :=
  match s with
  | EmptyString => EmptyString
  | String c s' => String (lower_ascii c) (lower s')
  end.

Section Helpers.

(** [math.sqrt] and [np.sqrt] *)
Variable sqrt : Q -> Q.

(** The builtin [round] with one argument, as an integer. *)
Variable round : Q -> Z.

(** [cspace_convert(data.T, from_space, to_space).T] on a [3 x N] array,
    given by its columns. *)
Variable cspace_convert_cols : list colour -> string -> string -> list colour.

(** [np.std(a)] *)
Definition np_std (a : list Q) : Q :=
  sqrt (np_average (map (fun x => Qabs (x - np_average a) ^ 2) a)).

(** [normalize(a)] on the entries of a float array. *)
Definition normalize (a : list Q) : list pyfloat :=
  map (fun x => np_div (x - np_average a) (np_std a)) a.

(** [_rnt(num, shift)] *)
Definition _rnt (num : Q) (shift : string) : Z :=
  if String.eqb (lower shift) "upper" then (Qceiling (num / 10) * 10)%Z
  else if String.eqb (lower shift) "lower" then (Qfloor (num / 10) * 10)%Z
  else (round (num / 10) * 10)%Z.

(** [convert(data, from_space, to_space)] *)
Definition convert (data : list colour) (from_space to_space : string)
    : list colour :=
  let data :=
    if String.eqb from_space CSPACE1 then map (clip_colour 0 1) data
    else data in
  let new := cspace_convert_cols data from_space to_space in
  if String.eqb to_space CSPACE1 then map (clip_colour 0 1) new else new.

(** [get_rgb_jab(data, calc_jab)] for an array [data] of RGB values. *)
Definition get_rgb_jab (data : list colour) (calc_jab : bool)
    : list colour * option (list colour) :=
  let rgb := map (clip_colour 0 1) data in
  if calc_jab then
    let jab := convert rgb CSPACE1 CSPACE2 in
    let jab := map (fun c : colour => (np_clip 0 100 c.1.1, c.1.2, c.2)) jab in
    (rgb, Some jab)
  else (rgb, None).

End Helpers.

(** The numbers that the properties of [_rnt] are stated for: zero, and
    the magnitudes from 1e-300 to 2**50.  (Past 2**53 the float quotient
    [num / 10.0] is a multiple of a power of two that is more than ten
    away from the exact one, and below the least normal float it is
    zero.) *)
Definition rnt_range (num : Q) : Prop :=
  Qabs num <= 2 ^ 50 /\ (num == 0 \/ 1 # 10 ^ 300 <= Qabs num).

(** Entries of a small image, for the examples. *)
Definition entries4 : list Q := [-3; 0; 1; 5].

(** ** [overlay_colormap] *)

(** [a[:, value]] for a Python integer [value]: a negative index counts
    from the end, an index outside the array raises [IndexError]. *)
Definition column_at (a : ndarray) (value : Z) : outcome column :=
  let n := Z.of_nat (shape1 a) in
  if (0 <=? value)%Z && (value <? n)%Z
  then Value (nth (Z.to_nat value) a (0, 0, 0))
  else if (- n <=? value)%Z && (value <? 0)%Z
  then Value (nth (Z.to_nat (n + value)) a (0, 0, 0))
  else Failure (Builtin IndexError).

(** The builtin [round] of Python 3 with one argument: the nearest
    integer, and the even one of the two at a tie. *)
Definition round_half_even (q : Q) : Z :=
  let f := Qfloor q in
  let r := q - inject_Z f in
  if Qltb r (1 # 2) then f
  else if Qltb (1 # 2) r then (f + 1)%Z
  else if Z.even f then f else (f + 1)%Z.

(** An entry of [img_rgb]: of type [np.uint8] when [plot_ready], of type
    [np.float16] otherwise. *)
Inductive cell : Type :=
| U8 (z : Z)
| F16 (q : Q).

Section Overlay.

(** The builtin [round] with one argument. *)
Variable round : Q -> Z.

(** What assigning a float into an array of type [np.uint8] and of type
    [np.float16] stores. *)
Variable uint8 : Q -> Z.
Variable float16 : Q -> Q.

(** [int(round(x))]: [round] raises on NaN and on an infinity. *)
Definition int_round (x : pyfloat) : outcome Z :=
  match x with
  | Fin q => Value (round q)
  | NaN => Failure (Builtin ValueError)
  | PInf | NInf => Failure OverflowError
  end.

(** The index [value] of the entry [x] of [img]. *)
Definition overlay_value (img : list Q) (max_val : nat) (x : Q) : outcome Z :=
  match py_min img, py_max img with
  | Return mn, Return mx =>
      int_round (np_div ((x - mn) * (Qnat max_val - 1)) (mx - mn))
  | _, _ => Failure (Builtin ValueError)
  end.

(** [img_rgb[i, j, :] = ...] for the colour [trgb]. *)
Definition paint (plot_ready : bool) (trgb : column) : cell * cell * cell :=
  if plot_ready
  then (U8 (uint8 (trgb.1.1 * 255)), U8 (uint8 (trgb.1.2 * 255)),
        U8 (uint8 (trgb.2 * 255)))
  else (F16 (float16 trgb.1.1), F16 (float16 trgb.1.2), F16 (float16 trgb.2)).

(** The two loops of [overlay_colormap] over the entries of [img], row
    by row. *)
Fixpoint overlay_loop (img : list Q) (cmap_rgb : ndarray) (plot_ready : bool)
    (entries : list Q) : outcome (list (cell * cell * cell)) :=
  match entries with
  | [] => Value []
  | x :: entries' =>
      match overlay_value img (shape1 cmap_rgb) x with
      | Failure f => Failure f
      | Value value =>
          match column_at cmap_rgb value with
          | Failure f => Failure f
          | Value trgb =>
              match overlay_loop img cmap_rgb plot_ready entries' with
              | Failure f => Failure f
              | Value out => Value (paint plot_ready trgb :: out)
              end
          end
      end
  end.

(** [overlay_colormap(img, cmap_rgb, plot_ready=plot_ready)] on the
    entries of [img], row by row, and the columns of [cmap_rgb]. *)
Definition overlay_colormap (img : list Q) (cmap_rgb : ndarray)
    (plot_ready : bool) : outcome (list (cell * cell * cell)) :=
  overlay_loop img cmap_rgb plot_ready img.

End Overlay.

(** ** [create_isoluminant_map] *)

(** [int(x)] on a number: towards zero. *)
Definition py_int (x : Q) : Z := if Qltb x 0 then Qceiling x else Qfloor x.

(** [jab[0, :] = J] for a whole number [J], the columns handed on as
    colours. *)
Definition with_lightness (jab : ndarray) (J : Z) : list colour :=
  map (fun c => (Fin (inject_Z J), Fin (col_a c), Fin (col_b c))) jab.

Section Isoluminant.

Variable cspace_convert : Q -> arg -> arg -> pyfloat * pyfloat * pyfloat.
Variable cspace_convert_cols : list colour -> string -> string -> list colour.

(** [create_isoluminant_map(data)] from line 87 on, for the array [jab]
    that [get_rgb_jab] returned; the result is the list of the maps
    [rgb[:, :, j]].  [np.zeros] raises [ValueError] on a negative
    dimension. *)
Definition create_isoluminant_map (fuel : nat) (jab : ndarray)
    : result (list (list colour)) :=
  '(minJ, maxJ) ← find_J_bounds cspace_convert fuel jab;
  let h := (py_int maxJ - py_int minJ)%Z in
  if (h <? 0)%Z then Raise ValueError
  else
    Return
      (map (fun j =>
              convert cspace_convert_cols
                (with_lightness jab (py_int minJ + Z.of_nat j)) CSPACE2 CSPACE1)
         (seq 0 (Z.to_nat h))).

End Isoluminant.

(** A converter of whole arrays that makes every colour grey. *)
Definition convert_cols_grey (data : list colour) (from_space to_space : string)
    : list colour :=
  map (fun _ => (Fin (1 # 2), Fin (1 # 2), Fin (1 # 2))) data.

(** A colormap of three colours, and conversions to run the examples. *)
Definition cmap3 : ndarray := [(0, 0, 0); (1 # 2, 1 # 2, 1 # 2); (1, 1, 1)].
Definition uint8_trunc (q : Q) : Z := (Qfloor q mod 256)%Z.
Definition float16_exact (q : Q) : Q := q.

(** * Properties *)

(** ** Comparisons, [min] and [max] *)

Lemma Return_inj {A : Type} (x y : A) : Return x = Return y -> x = y.
Proof. intros H. injection H as ->. reflexivity. Qed.

Lemma Qltb_lt (x y : Q) : Qltb x y = true <-> x < y.
Proof.
  unfold Qltb. rewrite negb_true_iff.
  destruct (Qle_bool y x) eqn:E.
  - apply Qle_bool_iff in E. split; [discriminate | intros H; exfalso; lra].
  - split; [intros _ | reflexivity].
    destruct (Qlt_le_dec x y) as [H | H]; [exact H |].
    apply Qle_bool_iff in H. congruence.
Qed.

Lemma Qltb_ge (x y : Q) : Qltb x y = false <-> y <= x.
Proof.
  unfold Qltb. rewrite negb_false_iff. apply Qle_bool_iff.
Qed.

Lemma py_max2_spec (x y : Q) :
  x <= py_max2 x y /\ y <= py_max2 x y /\ (py_max2 x y = x \/ py_max2 x y = y).
Proof.
  unfold py_max2, Qgtb. destruct (Qltb x y) eqn:E.
  - apply Qltb_lt in E. repeat split; [lra | lra | auto].
  - apply Qltb_ge in E. repeat split; [lra | lra | auto].
Qed.

Lemma py_min2_spec (x y : Q) :
  py_min2 x y <= x /\ py_min2 x y <= y /\ (py_min2 x y = x \/ py_min2 x y = y).
Proof.
  unfold py_min2. destruct (Qltb y x) eqn:E.
  - apply Qltb_lt in E. repeat split; [lra | lra | auto].
  - apply Qltb_ge in E. repeat split; [lra | lra | auto].
Qed.

Lemma max_from_ge (l : list Q) : forall cur,
  cur <= max_from cur l /\ forall x, In x l -> x <= max_from cur l.
Proof.
  induction l as [| y l IH]; intros cur; simpl.
  - split; [lra | tauto].
  - destruct (IH (py_max2 cur y)) as [H1 H2].
    destruct (py_max2_spec cur y) as (Hc & Hy & _).
    split; [lra |]. intros x [<- | Hx]; [lra | auto].
Qed.

Lemma min_from_le (l : list Q) : forall cur,
  min_from cur l <= cur /\ forall x, In x l -> min_from cur l <= x.
Proof.
  induction l as [| y l IH]; intros cur; simpl.
  - split; [lra | tauto].
  - destruct (IH (py_min2 cur y)) as [H1 H2].
    destruct (py_min2_spec cur y) as (Hc & Hy & _).
    split; [lra |]. intros x [<- | Hx]; [lra | auto].
Qed.

(** ** [_valid_rgb] *)

(** C7 (as the code has it): with the default epsilon, [_valid_rgb] holds
    exactly for the finite values strictly between [-epsilon] and
    [1 + epsilon]. *)
Theorem valid_rgb_open_interval (num : pyfloat) :
  _valid_rgb num default_e = true <->
  exists q, num = Fin q /\ - default_e < q /\ q < 1 + default_e.
Proof.
  unfold _valid_rgb. destruct num as [q | | |]; simpl.
  - unfold Qgtb. rewrite andb_true_iff, !Qltb_lt. split.
    + intros [H1 H2]. exists q. auto.
    + intros (q' & Heq & H1 & H2). injection Heq as <-. auto.
  - split; [discriminate | intros (q & Hq & _); discriminate].
  - split; [discriminate | intros (q & Hq & _); discriminate].
  - split; [discriminate | intros (q & Hq & _); discriminate].
Qed.

(** C7 (as the claim has it, refuted): the upper end point [1 + epsilon]
    is finite and lies in the closed interval, and [_valid_rgb] rejects
    it. *)
Lemma valid_rgb_rejects_endpoint :
  ~ (forall num : pyfloat,
       _valid_rgb num default_e = true <->
       exists q, num = Fin q /\ - default_e <= q /\ q <= 1 + default_e).
Proof.
  intros H. specialize (H (Fin (1 + default_e))).
  assert (E : _valid_rgb (Fin (1 + default_e)) default_e = false)
    by reflexivity.
  rewrite E in H. destruct H as [_ H].
  enough (false = true) by discriminate.
  apply H. exists (1 + default_e). split; [reflexivity |].
  unfold default_e. split; lra.
Qed.

(** ** [_find_distance] *)

(** C8: on points of unequal length [_find_distance] does not fail: it
    returns the class object [ValueError]. *)
Theorem find_distance_mismatch_returns_class
    (sqrt : Q -> Q) (p1 p2 : list Q) :
  length p1 <> length p2 ->
  _find_distance sqrt p1 p2 = PyClass ValueError.
Proof.
  intros H. unfold _find_distance.
  destruct (Nat.eqb_spec (length p1) (length p2)) as [E | E]; [contradiction |].
  reflexivity.
Qed.

Lemma find_distance_mismatch_witness :
  length [0] <> length [3; 4] /\
  _find_distance sqrt_milli [0] [3; 4] = PyClass ValueError.
Proof.
  split; [simpl; lia |].
  apply (find_distance_mismatch_returns_class sqrt_milli [0] [3; 4]).
  simpl; lia.
Defined.

(** On points of one length [_find_distance] is the root of the sum of the
    squared differences. *)
Lemma find_distance_equal_length (sqrt : Q -> Q) (p1 p2 : list Q) :
  length p1 = length p2 ->
  _find_distance sqrt p1 p2 =
  PyFloat (sqrt (fold_left (fun val i => val + (nth i p2 0 - nth i p1 0) ^ 2)
                   (seq 0 (length p1)) 0)).
Proof.
  intros H. unfold _find_distance. rewrite H, Nat.eqb_refl. reflexivity.
Qed.

Lemma find_distance_3_4_5 :
  _find_distance sqrt_milli [0; 0] [3; 4] = PyFloat (5000 # 1000).
Proof. reflexivity. Qed.

(** ** The scan of one pair *)

Lemma Qadd_eq (x y : Q) : Qadd x y == x + y.
Proof. apply Qred_correct. Qed.

Lemma Qnat_S (n : nat) : Qnat (S n) == Qnat n + 1.
Proof.
  unfold Qnat. rewrite Nat2Z.inj_succ, <- Z.add_1_r, inject_Z_plus.
  reflexivity.
Qed.

Lemma Qnat_le (n k : nat) : (n <= k)%nat -> Qnat n <= Qnat k.
Proof.
  intros H. unfold Qnat. rewrite <- Zle_Qle. lia.
Qed.

Lemma Qnat_nonneg (n : nat) : 0 <= Qnat n.
Proof. apply (Qnat_le 0 n). lia. Qed.

Section Scan.

Variable cspace_convert : Q -> arg -> arg -> pyfloat * pyfloat * pyfloat.

Let feasible := _find_J_bounds cspace_convert.

Lemma scan_J_step (fuel : nat) (a b : arg) (maxJ J : Q) (passed : list Q) :
  scan_J cspace_convert (S fuel) a b maxJ J passed =
  if Qle_bool J maxJ then
    '(J', passed') ← coarse_run cspace_convert fuel a b J
                       (if feasible J a b then passed ++ [J] else passed);
    scan_J cspace_convert fuel a b maxJ (Qadd J' (1 # 10)) passed'
  else Return passed.
Proof. reflexivity. Qed.

Lemma coarse_run_stop (fuel : nat) (a b : arg) (J : Q) (passed : list Q) :
  feasible (Qadd J 5) a b = false ->
  coarse_run cspace_convert (S fuel) a b J passed = Return (J, passed).
Proof. intros H. simpl. fold feasible. rewrite H. reflexivity. Qed.

(** When nothing from [J0] on is feasible, the scan takes the steps of
    0.1 up to [maxJ] and records nothing. *)
Lemma scan_J_infeasible (a b : arg) (maxJ J0 : Q) :
  (forall j, J0 <= j -> feasible j a b = false) ->
  forall (fuel : nat) (J : Q) (passed : list Q),
    J0 <= J -> (1 <= fuel)%nat -> (maxJ - J) * 10 + 2 <= Qnat fuel ->
    scan_J cspace_convert fuel a b maxJ J passed = Return passed.
Proof.
  intros Hno. induction fuel as [| fuel IH]; intros J passed HJ Hf Hb; [lia |].
  rewrite scan_J_step. destruct (Qle_bool J maxJ) eqn:E; [| reflexivity].
  apply Qle_bool_iff in E. rewrite Qnat_S in Hb.
  rewrite (Hno J HJ).
  destruct fuel as [| fuel'].
  { exfalso. change (Qnat 0) with 0 in Hb. lra. }
  rewrite coarse_run_stop by (apply Hno; rewrite Qadd_eq; lra).
  change (scan_J cspace_convert (S fuel') a b maxJ (Qadd J (1 # 10)) passed
          = Return passed).
  apply IH; [rewrite Qadd_eq; lra | lia | rewrite Qadd_eq; lra].
Qed.

(** The same when nothing is feasible from [J0] up to [maxJ + 5], as far
    as the scan looks. *)
Lemma scan_J_infeasible_upto (a b : arg) (maxJ J0 : Q) :
  (forall j, J0 <= j -> j <= maxJ + 5 -> feasible j a b = false) ->
  forall (fuel : nat) (J : Q) (passed : list Q),
    J0 <= J -> (1 <= fuel)%nat -> (maxJ - J) * 10 + 2 <= Qnat fuel ->
    scan_J cspace_convert fuel a b maxJ J passed = Return passed.
Proof.
  intros Hno. induction fuel as [| fuel IH]; intros J passed HJ Hf Hb; [lia |].
  rewrite scan_J_step. destruct (Qle_bool J maxJ) eqn:E; [| reflexivity].
  apply Qle_bool_iff in E. rewrite Qnat_S in Hb.
  rewrite (Hno J HJ) by lra.
  destruct fuel as [| fuel'].
  { exfalso. change (Qnat 0) with 0 in Hb. lra. }
  rewrite coarse_run_stop by (apply Hno; rewrite Qadd_eq; lra).
  change (scan_J cspace_convert (S fuel') a b maxJ (Qadd J (1 # 10)) passed
          = Return passed).
  apply IH; [rewrite Qadd_eq; lra | lia | rewrite Qadd_eq; lra].
Qed.




(** The aggregation over two runs of pairs is the aggregation over the
    second, from the interval that the first has reached. *)
Lemma pairs_loop_app (fuel : nat) (pre post : ndarray) :
  forall minJ maxJ : Q,
    pairs_loop cspace_convert fuel (pre ++ post) minJ maxJ =
    ('(lo, hi) ← pairs_loop cspace_convert fuel pre minJ maxJ;
     pairs_loop cspace_convert fuel post lo hi).
Proof.
  induction pre as [| p pre IH]; intros minJ maxJ; [reflexivity |].
  cbn [app pairs_loop].
  destruct (scan_J cspace_convert fuel (Scalar (col_a p)) (Scalar (col_b p))
              maxJ minJ []) as [[| x passed] | e |]; try reflexivity.
  - simpl. apply IH.
  - simpl. apply IH.
Qed.

(** When no pair is ever feasible the aggregation leaves the running
    interval as it was. *)
Lemma pairs_loop_infeasible (cols : ndarray) (minJ maxJ : Q) (fuel : nat) :
  (forall c j, In c cols ->
     feasible j (Scalar (col_a c)) (Scalar (col_b c)) = false) ->
  (1 <= fuel)%nat -> (maxJ - minJ) * 10 + 2 <= Qnat fuel ->
  pairs_loop cspace_convert fuel cols minJ maxJ = Return (minJ, maxJ).
Proof.
  intros Hno Hf Hb. induction cols as [| c rest IH]; [reflexivity |].
  simpl.
  rewrite (scan_J_infeasible _ _ maxJ minJ); [| | lra | lia | lra].
  - simpl. apply IH. intros c' j Hc'. apply Hno. right. exact Hc'.
  - intros j _. apply Hno. left. reflexivity.
Qed.

(** The running interval only narrows, and it narrows into the range of
    what each pair recorded. *)
Lemma pairs_loop_narrows (fuel : nat) (cols : ndarray) :
  forall (minJ maxJ lo hi : Q),
    pairs_loop cspace_convert fuel cols minJ maxJ = Return (lo, hi) ->
    minJ <= lo /\ hi <= maxJ /\
    length (pairs_trace cspace_convert fuel cols minJ maxJ) = length cols /\
    forall x passed,
      In (x :: passed) (pairs_trace cspace_convert fuel cols minJ maxJ) ->
      min_from x passed <= lo /\ hi <= max_from x passed.
Proof.
  induction cols as [| c rest IH]; intros minJ maxJ lo hi H.
  - simpl in H. injection H as <- <-. simpl.
    split; [lra | split; [lra | split; [reflexivity | intros x p []]]].
  - simpl in H |- *.
    destruct (scan_J cspace_convert fuel (Scalar (col_a c)) (Scalar (col_b c))
                maxJ minJ []) as [[| x passed] | e |]; simpl in H;
      try discriminate.
    + destruct (IH _ _ _ _ H) as (H1 & H2 & H3 & H4).
      split; [lra | split; [lra | split; [simpl; lia |]]].
      intros y l [E | Hin]; [discriminate | apply (H4 y l Hin)].
    + destruct (IH _ _ _ _ H) as (H1 & H2 & H3 & H4).
      destruct (py_max2_spec minJ (min_from x passed)) as (Ha & Hb & _).
      destruct (py_min2_spec maxJ (max_from x passed)) as (Hc & Hd & _).
      split; [lra | split; [lra | split; [simpl; lia |]]].
      intros y l [E | Hin]; [| apply (H4 y l Hin)].
      injection E as <- <-. split; lra.
Qed.

End Scan.

(** ** [find_J_bounds] *)

(** C1: on an array of more than three pairs none of which is feasible at
    any lightness, [find_J_bounds] returns the full default interval
    [(0, 100)], an interval like any other, and no failure value. *)
Theorem find_J_bounds_no_feasible_pair
    (cspace_convert : Q -> arg -> arg -> pyfloat * pyfloat * pyfloat)
    (m : ndarray) (fuel : nat) :
  (3 < shape1 m)%nat ->
  (forall c j, In c m ->
     _find_J_bounds cspace_convert j (Scalar (col_a c)) (Scalar (col_b c))
     = false) ->
  (1002 <= fuel)%nat ->
  find_J_bounds cspace_convert fuel m = Return (0, 100).
Proof.
  intros Hm Hno Hf. unfold find_J_bounds.
  apply Nat.ltb_lt in Hm. rewrite Hm.
  apply pairs_loop_infeasible; [exact Hno | lia |].
  apply (Qnat_le 1002 fuel) in Hf. change (Qnat 1002) with 1002 in Hf. lra.
Qed.

Lemma find_J_bounds_no_feasible_pair_witness :
  (3 < shape1 pairs_none)%nat /\
  (forall c j, In c pairs_none ->
     _find_J_bounds convert_none j (Scalar (col_a c)) (Scalar (col_b c))
     = false) /\
  (1002 <= 1002)%nat /\
  find_J_bounds convert_none 1002 pairs_none = Return (0, 100).
Proof.
  assert (H1 : (3 < shape1 pairs_none)%nat) by (vm_compute; lia).
  assert (H2 : forall c j, In c pairs_none ->
     _find_J_bounds convert_none j (Scalar (col_a c)) (Scalar (col_b c))
     = false) by (intros c j _; reflexivity).
  assert (H3 : (1002 <= 1002)%nat) by lia.
  split; [exact H1 | split; [exact H2 | split; [exact H3 |]]].
  exact (find_J_bounds_no_feasible_pair convert_none pairs_none 1002 H1 H2 H3).
Defined.

(** The same interval comes back for pairs that are feasible at every
    lightness of the scan. *)
Example find_J_bounds_all_feasible :
  find_J_bounds convert_all 30 pairs_none = Return (0, 100).
Proof. vm_compute. reflexivity. Qed.

(** Two pairs feasible on [10, 20] and two on [50, 60]: the result is the
    interval of the first two. *)
Example find_J_bounds_disjoint_pairs :
  find_J_bounds convert_bands 1100 pairs_disjoint = Return (5, 15).
Proof. vm_compute. reflexivity. Qed.

(** Under [convert_bands] the pair [(2, 0)] is feasible between 50 and 60
    only. *)
Lemma convert_bands_upper_band (J : Q) (j : Q) :
  j < 50 ->
  _find_J_bounds convert_bands j (Scalar (col_a (J, 2, 0)))
    (Scalar (col_b (J, 2, 0))) = false.
Proof.
  intros H. unfold _find_J_bounds, convert_bands, col_a, col_b. simpl.
  assert (E : Qle_bool 50 j = false).
  { destruct (Qle_bool 50 j) eqn:E; [| reflexivity].
    apply Qle_bool_iff in E. exfalso. lra. }
  rewrite E. reflexivity.
Qed.

Example find_J_bounds_first_pairs :
  find_J_bounds convert_bands 1100 pairs_first = Return (5, 15).
Proof. vm_compute. reflexivity. Qed.

(** C2: the aggregation does not intersect.  When the pairs before [c]
    have brought the interval to [[lo, hi]] and [c] is feasible at no
    lightness from [lo] to [hi + 5], the scan of [c] records nothing and
    [c] is passed over: the result is what it is without [c], and every
    lightness of the interval returned is one at which [c] is not
    feasible, wherever else [c] may be. *)
Theorem aggregate_ignores_disjoint_pair
    (cspace_convert : Q -> arg -> arg -> pyfloat * pyfloat * pyfloat)
    (fuel : nat) (pre post : ndarray) (c : column) (lo hi : Q) :
  (3 < shape1 pre)%nat ->
  find_J_bounds cspace_convert fuel pre = Return (lo, hi) ->
  (forall j, lo <= j -> j <= hi + 5 ->
     _find_J_bounds cspace_convert j (Scalar (col_a c)) (Scalar (col_b c))
     = false) ->
  (1002 <= fuel)%nat ->
  find_J_bounds cspace_convert fuel (pre ++ c :: post) =
  find_J_bounds cspace_convert fuel (pre ++ post) /\
  forall lo' hi',
    find_J_bounds cspace_convert fuel (pre ++ c :: post) = Return (lo', hi') ->
    forall j, lo' <= j -> j <= hi' ->
      _find_J_bounds cspace_convert j (Scalar (col_a c)) (Scalar (col_b c))
      = false.
Proof.
  intros Hm Hpre Hno Hf. unfold find_J_bounds in *.
  assert (E0 : (3 <? shape1 pre)%nat = true) by (apply Nat.ltb_lt; exact Hm).
  assert (E1 : (3 <? shape1 (pre ++ post))%nat = true).
  { apply Nat.ltb_lt. unfold shape1 in *. rewrite length_app. lia. }
  assert (E2 : (3 <? shape1 (pre ++ c :: post))%nat = true).
  { apply Nat.ltb_lt. unfold shape1 in *. rewrite length_app. simpl. lia. }
  rewrite E0 in Hpre. rewrite E1, E2, !pairs_loop_app, Hpre.
  destruct (pairs_loop_narrows _ _ _ _ _ _ _ Hpre) as (H0 & H100 & _).
  assert (Hskip : pairs_loop cspace_convert fuel (c :: post) lo hi
                  = pairs_loop cspace_convert fuel post lo hi).
  { cbn [pairs_loop].
    rewrite (scan_J_infeasible_upto cspace_convert _ _ hi lo Hno);
      [reflexivity | lra | lia |].
    apply (Qnat_le 1002 fuel) in Hf. change (Qnat 1002) with 1002 in Hf.
    lra. }
  unfold mbind, result_bind, bind. rewrite Hskip.
  split; [reflexivity |].
  intros lo' hi' H j Hj1 Hj2.
  destruct (pairs_loop_narrows _ _ _ _ _ _ _ H) as (H1 & H2 & _).
  apply Hno; lra.
Qed.

Lemma aggregate_ignores_disjoint_pair_witness :
  (3 < shape1 pairs_first)%nat /\
  find_J_bounds convert_bands 1100 pairs_first = Return (5, 15) /\
  (forall j, 5 <= j -> j <= 15 + 5 ->
     _find_J_bounds convert_bands j (Scalar (col_a (50, 2, 0)))
       (Scalar (col_b (50, 2, 0))) = false) /\
  (1002 <= 1100)%nat /\
  find_J_bounds convert_bands 1100 (pairs_first ++ (50, 2, 0) :: []) =
  find_J_bounds convert_bands 1100 (pairs_first ++ []) /\
  forall lo' hi',
    find_J_bounds convert_bands 1100 (pairs_first ++ (50, 2, 0) :: [])
    = Return (lo', hi') ->
    forall j, lo' <= j -> j <= hi' ->
      _find_J_bounds convert_bands j (Scalar (col_a (50, 2, 0)))
        (Scalar (col_b (50, 2, 0))) = false.
Proof.
  assert (H1 : (3 < shape1 pairs_first)%nat) by (vm_compute; lia).
  assert (H3 : forall j, 5 <= j -> j <= 15 + 5 ->
     _find_J_bounds convert_bands j (Scalar (col_a (50, 2, 0)))
       (Scalar (col_b (50, 2, 0))) = false).
  { intros j _ Hj. apply convert_bands_upper_band. lra. }
  assert (H4 : (1002 <= 1100)%nat) by lia.
  split; [exact H1 | split; [exact find_J_bounds_first_pairs | split;
    [exact H3 | split; [exact H4 |]]]].
  exact (aggregate_ignores_disjoint_pair convert_bands 1100 pairs_first []
           (50, 2, 0) 5 15 H1 find_J_bounds_first_pairs H3 H4).
Defined.



(** ** Arrays and lines *)

Lemma length_arange (n : nat) : length (arange n) = n.
Proof. unfold arange. rewrite length_map, length_seq. reflexivity. Qed.

Lemma length_candidate (slope b : Q) : length (candidate slope b) = 256%nat.
Proof. unfold candidate. rewrite length_map. apply length_arange. Qed.

Lemma length_linspace (start stop : Q) (n : nat) :
  length (linspace start stop n) = n.
Proof. unfold linspace. rewrite length_map, length_seq. reflexivity. Qed.

Lemma length_row_J (m : ndarray) : length (row_J m) = length m.
Proof. apply length_map. Qed.

Lemma row_J_set_row_J (line : list Q) : forall m : ndarray,
  length line = length m -> row_J (set_row_J m line) = line.
Proof.
  induction line as [| v line IH]; intros [| c m] H; simpl in H;
    try discriminate; [reflexivity |].
  unfold set_row_J, row_J in *. simpl. f_equal. apply IH. lia.
Qed.

Lemma vsub_nth (u : list Q) : forall (v : list Q) (i : nat),
  (i < length u)%nat -> (i < length v)%nat ->
  nth i (vsub u v) 0 = nth i u 0 - nth i v 0.
Proof.
  induction u as [| x u IH]; intros [| y v] i Hu Hv; simpl in *; try lia.
  destruct i as [| i]; [reflexivity |]. apply IH; lia.
Qed.

Lemma length_vsub (u v : list Q) :
  length u = length v -> length (vsub u v) = length u.
Proof.
  revert v. induction u as [| x u IH]; intros [| y v] H; simpl in *;
    try discriminate; [reflexivity |].
  f_equal. apply IH. lia.
Qed.

Lemma filter_empty_all {A : Type} (f : A -> bool) (l : list A) :
  length (List.filter f l) = 0%nat -> forall x, In x l -> f x = false.
Proof.
  induction l as [| y l IH]; intros H x Hx; simpl in *; [contradiction |].
  destruct (f y) eqn:E; [discriminate |].
  destruct Hx as [<- | Hx]; [exact E | apply IH; assumption].
Qed.

(** ** [_correct_J] and the max-range search *)

(** [_correct_J] hands back an array only for a line inside the bounds at
    every index, and that array carries the line as its [J] row. *)
Lemma correct_J_line_within (low high line : list Q) (m m2 : ndarray) :
  length low = length line -> length high = length line ->
  length m = length line ->
  _correct_J low high line m = Some m2 ->
  row_J m2 = line /\
  forall i, (i < length line)%nat ->
    nth i low 0 <= nth i line 0 /\ nth i line 0 <= nth i high 0.
Proof.
  intros Hl Hh Hm H. unfold _correct_J in H.
  destruct (Nat.eqb_spec
    (length (List.filter (fun x => Qltb x 0) (vsub high line)) +
     length (List.filter (fun x => Qltb x 0) (vsub line low))) 0)
    as [E | E]; [| discriminate].
  injection H as <-. split; [apply row_J_set_row_J; lia |].
  intros i Hi.
  assert (Hup : Qltb (nth i (vsub high line) 0) 0 = false).
  { apply (filter_empty_all (fun x => Qltb x 0) (vsub high line)); [lia |].
    apply nth_In. rewrite length_vsub; lia. }
  assert (Hlo : Qltb (nth i (vsub line low) 0) 0 = false).
  { apply (filter_empty_all (fun x => Qltb x 0) (vsub line low)); [lia |].
    apply nth_In. rewrite length_vsub; lia. }
  rewrite vsub_nth in Hup, Hlo by lia.
  apply Qltb_ge in Hup, Hlo. split; lra.
Qed.

Lemma b_loop_step (fuel : nat) (low high : list Q) (m : ndarray)
    (slope max_b delta_b b : Q) :
  b_loop (S fuel) low high m slope max_b delta_b b =
  if Qle_bool b max_b then
    match _correct_J low high (candidate slope b) m with
    | Some m2 => Return (Some m2)
    | None =>
        if Qgtb (List.last (candidate slope b) 0) (List.last high 0)
           || Qgtb (nth 0 (candidate slope b) 0) (nth 0 high 0)
        then b_loop fuel low high m slope max_b delta_b 100
        else b_loop fuel low high m slope max_b delta_b (b + delta_b)
    end
  else Return None.
Proof. reflexivity. Qed.

Lemma slope_loop_step (fuel : nat) (low high : list Q) (m : ndarray)
    (max_b delta_slope delta_b slope : Q) :
  slope_loop (S fuel) low high m max_b delta_slope delta_b slope =
  if Qneqb slope 0 then
    m2 ← b_loop fuel low high m slope max_b delta_b (nth 0 low 0);
    match m2 with
    | Some _ => Return m2
    | None =>
        slope_loop fuel low high m max_b delta_slope delta_b
          (slope + delta_slope)
    end
  else Return None.
Proof. reflexivity. Qed.

Lemma b_loop_found (low high : list Q) (m : ndarray)
    (slope max_b delta_b : Q) (m2 : ndarray) :
  forall (fuel : nat) (b : Q),
    b_loop fuel low high m slope max_b delta_b b = Return (Some m2) ->
    exists b', _correct_J low high (candidate slope b') m = Some m2.
Proof.
  induction fuel as [| fuel IH]; intros b H; [discriminate |].
  rewrite b_loop_step in H.
  destruct (Qle_bool b max_b); [| discriminate].
  destruct (_correct_J low high (candidate slope b) m) as [m' |] eqn:E.
  - injection H as <-. exists b. exact E.
  - destruct (Qgtb (List.last (candidate slope b) 0) (List.last high 0)
              || Qgtb (nth 0 (candidate slope b) 0) (nth 0 high 0));
      apply IH in H; exact H.
Qed.

Lemma slope_loop_found (low high : list Q) (m : ndarray)
    (max_b delta_slope delta_b : Q) (m2 : ndarray) :
  forall (fuel : nat) (slope : Q),
    slope_loop fuel low high m max_b delta_slope delta_b slope
    = Return (Some m2) ->
    exists slope' b',
      _correct_J low high (candidate slope' b') m = Some m2.
Proof.
  induction fuel as [| fuel IH]; intros slope H; [discriminate |].
  rewrite slope_loop_step in H.
  destruct (Qneqb slope 0); [| discriminate].
  destruct (b_loop fuel low high m slope max_b delta_b (nth 0 low 0))
    as [[m' |] | e |] eqn:E; simpl in H; try discriminate.
  - injection H as ->. exists slope. apply (b_loop_found _ _ _ _ _ _ _ _ _ E).
  - apply IH in H. exact H.
Qed.

(** What a returning call of [correct_J] is made of. *)
Lemma correct_J_returns (fuel : nat) (low high : list Q) (m : ndarray)
    (delta_slope delta_b : Q) (m1 : ndarray) (fitB : option ndarray) :
  correct_J fuel low high m delta_slope delta_b = Return (m1, fitB) ->
  exists line,
    fit_to_original (row_J m) = Return line /\ m1 = set_row_J m line /\
    (fitB = None \/
     exists ds slope,
       max_range_search fuel low high m ds delta_b slope = Return fitB).
Proof.
  unfold correct_J. intros H.
  destruct (fit_to_original (row_J m)) as [line | e |]; simpl in H;
    try discriminate.
  exists line. split; [reflexivity |].
  destruct (Qle_bool (nth 0 (row_J m) 0) (List.last (row_J m) 0)).
  - destruct (Qltb (List.last high 0 - nth 0 low 0) 0).
    + injection H as <- <-. auto.
    + destruct (max_range_search fuel low high m (- Qabs delta_slope) delta_b
                  (List.last high 0 - nth 0 low 0)) as [r | e |] eqn:E;
        simpl in H; try discriminate.
      injection H as <- <-. split; [reflexivity |]. right. eauto.
  - destruct (Qgtb (List.last low 0 - nth 0 high 0) 0).
    + injection H as <- <-. auto.
    + destruct (max_range_search fuel low high m (Qabs delta_slope) delta_b
                  (List.last low 0 - nth 0 high 0)) as [r | e |] eqn:E;
        simpl in H; try discriminate.
      injection H as <- <-. split; [reflexivity |]. right. eauto.
Qed.

(** Method 1 returns only for a trajectory of 256 values. *)
Lemma fit_to_original_length_in (J line : list Q) :
  fit_to_original J = Return line -> length J = 256%nat.
Proof.
  unfold fit_to_original, polyfit1. rewrite length_arange.
  destruct (Nat.eqb_spec 256 (length J)) as [E | E]; [intros _; lia |].
  discriminate.
Qed.

(** C3: whenever [correct_J] returns a max-range fit, its trajectory lies
    within the bounds at every index. *)
Theorem max_range_fit_within_bounds (fuel : nat) (low high : list Q)
    (m : ndarray) (delta_slope delta_b : Q) (m1 m2 : ndarray) :
  length low = 256%nat -> length high = 256%nat ->
  correct_J fuel low high m delta_slope delta_b = Return (m1, Some m2) ->
  forall i, (i < 256)%nat ->
    nth i low 0 <= nth i (row_J m2) 0 /\ nth i (row_J m2) 0 <= nth i high 0.
Proof.
  intros Hl Hh H i Hi.
  destruct (correct_J_returns _ _ _ _ _ _ _ _ H) as (line & HA & _ & HB).
  apply fit_to_original_length_in in HA. rewrite length_row_J in HA.
  destruct HB as [HB | (ds & slope & HB)]; [discriminate |].
  unfold max_range_search in HB.
  apply slope_loop_found in HB as (slope' & b' & HB).
  apply correct_J_line_within in HB as [Hrow Hin];
    rewrite ?length_candidate; try assumption.
  rewrite Hrow. apply Hin. rewrite length_candidate. exact Hi.
Qed.

Lemma max_range_fit_within_bounds_witness :
  exists m1 m2,
    length low5 = 256%nat /\ length high90 = 256%nat /\
    correct_J 2 low5 high90 jab_const10 1 1 = Return (m1, Some m2) /\
    forall i, (i < 256)%nat ->
      nth i low5 0 <= nth i (row_J m2) 0 /\
      nth i (row_J m2) 0 <= nth i high90 0.
Proof.
  assert (R : match correct_J 2 low5 high90 jab_const10 1 1 with
              | Return (_, Some _) => true
              | _ => false
              end = true) by (vm_compute; reflexivity).
  destruct (correct_J 2 low5 high90 jab_const10 1 1)
    as [[m1 [m2 |]] | e |] eqn:E; try discriminate R.
  exists m1, m2.
  split; [reflexivity | split; [reflexivity | split; [reflexivity |]]].
  exact (max_range_fit_within_bounds 2 low5 high90 jab_const10 1 1 m1 m2
           eq_refl eq_refl E).
Defined.

(** ** Method 1: the fit to the original trajectory *)

Lemma py_max_ge (l : list Q) (mx : Q) :
  py_max l = Return mx -> forall x, In x l -> x <= mx.
Proof.
  destruct l as [| y l]; [discriminate |]. simpl. intros H. injection H as <-.
  destruct (max_from_ge l y) as [H1 H2].
  intros x [<- | Hx]; [exact H1 | apply H2; exact Hx].
Qed.

Lemma py_min_le (l : list Q) (mn : Q) :
  py_min l = Return mn -> forall x, In x l -> mn <= x.
Proof.
  destruct l as [| y l]; [discriminate |]. simpl. intros H. injection H as <-.
  destruct (min_from_le l y) as [H1 H2].
  intros x [<- | Hx]; [exact H1 | apply H2; exact Hx].
Qed.

Lemma linspace_in (start stop : Q) (n : nat) (v : Q) :
  In v (linspace start stop n) ->
  exists i, (i < n)%nat /\
    v = start + Qnat i * ((stop - start) / Qnat (n - 1)).
Proof.
  unfold linspace. rewrite in_map_iff. intros (i & <- & Hi).
  apply in_seq in Hi. exists i. split; [lia | reflexivity].
Qed.

Lemma linspace_1_99 (v : Q) : In v (linspace 1 99 256) -> 1 <= v /\ v <= 99.
Proof.
  intros H. apply linspace_in in H as (i & Hi & ->).
  assert (Hs : (99 - 1) / Qnat (256 - 1) == 98 # 255) by reflexivity.
  assert (H0 := Qnat_nonneg i).
  assert (H1 : Qnat i <= 255) by (apply (Qnat_le i 255); lia).
  rewrite Hs. split; lra.
Qed.

Lemma linspace_99_1 (v : Q) : In v (linspace 99 1 256) -> 1 <= v /\ v <= 99.
Proof.
  intros H. apply linspace_in in H as (i & Hi & ->).
  assert (Hs : (1 - 99) / Qnat (256 - 1) == - (98 # 255)) by reflexivity.
  assert (H0 := Qnat_nonneg i).
  assert (H1 : Qnat i <= 255) by (apply (Qnat_le i 255); lia).
  rewrite Hs. split; lra.
Qed.

Lemma lin_fit_length (y lf : list Q) :
  lin_fit y = Return lf -> length lf = 256%nat.
Proof.
  unfold lin_fit. destruct (length (arange 256) =? length y)%nat;
    [| discriminate].
  intros H. apply Return_inj in H. subst lf.
  rewrite length_map. apply length_arange.
Qed.

(** Once the branch [max(line_fit) > 99] is taken, the trajectory of
    method 1 has 256 values, all of them in [1, 99]. *)
Lemma fit_to_original_clamped (J line : list Q) :
  fit_to_original J = Return line -> clamp_branch J = true ->
  length line = 256%nat /\ forall v, In v line -> 1 <= v /\ v <= 99.
Proof.
  unfold fit_to_original, clamp_branch.
  destruct (polyfit1 (arange 256) J) as [[slope b] | e |];
    [| discriminate | discriminate].
  unfold mbind, result_bind, bind.
  destruct (py_max (map (fun x => slope * x + b) (arange 256)))
    as [mx | e |]; [| discriminate | discriminate].
  intros H Hc. rewrite Hc in H.
  destruct (lin_fit (map (fun v => v - 99) J)) as [lf | e |] eqn:Elf;
    [| discriminate | discriminate].
  destruct (py_max lf) as [mx' | e |] eqn:Emx; [| discriminate | discriminate].
  destruct (py_min (map (fun v => v + (99 - mx')) lf)) as [mn | e |] eqn:Emn;
    [| discriminate | discriminate].
  destruct (Qltb mn 1) eqn:E1.
  - destruct (Qltb (nth 0 _ 0) (List.last _ 0));
      apply Return_inj in H; subst line;
      (split; [apply length_linspace |]).
    + apply linspace_1_99.
    + apply linspace_99_1.
  - apply Return_inj in H. subst line. split.
    + rewrite length_map. apply (lin_fit_length _ _ Elf).
    + intros v Hv. split.
      * apply Qltb_ge in E1. pose proof (py_min_le _ _ Emn v Hv). lra.
      * apply in_map_iff in Hv as (w & <- & Hw).
        pose proof (py_max_ge _ _ Emx w Hw). lra.
Qed.

(** C5: whenever method 1 of [correct_J] takes its branch
    [max(line_fit) > 99], every value of the first trajectory returned
    lies in [1, 99]. *)
Theorem fit_to_original_within_1_99 (fuel : nat) (low high : list Q)
    (m : ndarray) (delta_slope delta_b : Q) (m1 : ndarray)
    (fitB : option ndarray) :
  correct_J fuel low high m delta_slope delta_b = Return (m1, fitB) ->
  clamp_branch (row_J m) = true ->
  length (row_J m1) = 256%nat /\
  forall v, In v (row_J m1) -> 1 <= v /\ v <= 99.
Proof.
  intros H Hc.
  destruct (correct_J_returns _ _ _ _ _ _ _ _ H) as (line & HA & -> & _).
  pose proof (fit_to_original_length_in _ _ HA) as Hm.
  rewrite length_row_J in Hm.
  destruct (fit_to_original_clamped _ _ HA Hc) as [Hlen Hin].
  rewrite row_J_set_row_J by lia. split; assumption.
Qed.

Lemma fit_to_original_within_1_99_witness :
  exists m1 fitB,
    correct_J 2 low5 high90 jab_full 1 1 = Return (m1, fitB) /\
    clamp_branch (row_J jab_full) = true /\
    length (row_J m1) = 256%nat /\
    forall v, In v (row_J m1) -> 1 <= v /\ v <= 99.
Proof.
  assert (Hc : clamp_branch (row_J jab_full) = true)
    by (vm_compute; reflexivity).
  assert (R : returned (correct_J 2 low5 high90 jab_full 1 1) = true)
    by (vm_compute; reflexivity).
  destruct (correct_J 2 low5 high90 jab_full 1 1) as [[m1 fitB] | e |] eqn:E;
    try discriminate R.
  exists m1, fitB. split; [reflexivity | split; [exact Hc |]].
  exact (fit_to_original_within_1_99 2 low5 high90 jab_full 1 1 m1 fitB
           E Hc).
Defined.

(** ** The constant trajectory *)

Lemma nth_arange (n i : nat) : (i < n)%nat -> nth i (arange n) 0 = Qnat i.
Proof.
  intros H. unfold arange.
  change (nth i (map Qnat (seq 0 n)) (Qnat 0) = Qnat i).
  rewrite map_nth, seq_nth by exact H. reflexivity.
Qed.

Lemma nth_map_in {A B : Type} (f : A -> B) (d : A) (d' : B) (l : list A) :
  forall i, (i < length l)%nat -> nth i (map f l) d' = f (nth i l d).
Proof.
  induction l as [| x l IH]; intros [| i] H; simpl in *; try lia;
    [reflexivity | apply IH; lia].
Qed.


(** Method 1 on the constant trajectory 10 gives 256 values equal to 10. *)
Lemma fit_to_original_const10 :
  exists line,
    fit_to_original (repeat 10 256) = Return line /\
    length line = 256%nat /\ forall v, In v line -> v == 10.
Proof.
  assert (B : match fit_to_original (repeat 10 256) with
              | Return line =>
                  (length line =? 256)%nat
                  && forallb (fun v => Qeq_bool v 10) line
              | _ => false
              end = true) by (vm_compute; reflexivity).
  destruct (fit_to_original (repeat 10 256)) as [line | e |];
    try discriminate B.
  apply andb_true_iff in B as [B1 B2]. exists line.
  split; [reflexivity | split; [apply Nat.eqb_eq; exact B1 |]].
  intros v Hv. apply Qeq_bool_iff.
  apply (proj1 (forallb_forall _ line) B2 v Hv).
Qed.

(** The body from line 811 on, handed the constant trajectory and the
    bounds [5] and [90]: the first candidate of the search, slope
    [90 - 5] from [b = 5], is accepted. *)
Lemma correct_J_const10 (m : ndarray) :
  row_J m = repeat 10 256 ->
  exists line,
    (length line = 256%nat /\ forall v, In v line -> v == 10) /\
    forall fuel,
      correct_J (S (S fuel)) low5 high90 m 1 1 =
      Return (set_row_J m line,
              Some (set_row_J m
                      (candidate (List.last high90 0 - nth 0 low5 0)
                                 (nth 0 low5 0)))).
Proof.
  intros H.
  destruct fit_to_original_const10 as (line & HA & Hline).
  exists line. split; [exact Hline |]. intros fuel.
  unfold correct_J. rewrite H, HA.
  unfold mbind, result_bind, bind.
  replace (Qle_bool (nth 0 (repeat 10 256) 0) (List.last (repeat 10 256) 0))
    with true by reflexivity.
  replace (Qltb (List.last high90 0 - nth 0 low5 0) 0) with false
    by reflexivity.
  unfold max_range_search. rewrite slope_loop_step.
  replace (Qneqb (List.last high90 0 - nth 0 low5 0) 0) with true
    by reflexivity.
  rewrite b_loop_step.
  replace (Qle_bool (nth 0 low5 0)
             (py_max2 (nth 0 high90 0) (List.last high90 0)))
    with true by reflexivity.
  unfold _correct_J.
  set (line2 := candidate (List.last high90 0 - nth 0 low5 0) (nth 0 low5 0)).
  replace (length (List.filter (fun x => Qltb x 0%Q) (vsub high90 line2)) +
           length (List.filter (fun x => Qltb x 0%Q) (vsub line2 low5))
           =? 0)%nat
    with true by (vm_compute; reflexivity).
  reflexivity.
Qed.

(** ** Lines that [_correct_J] rejects *)

Lemma filter_nonempty {A : Type} (f : A -> bool) (l : list A) (x : A) :
  In x l -> f x = true -> length (List.filter f l) <> 0%nat.
Proof.
  induction l as [| y l IH]; intros Hx Hf; simpl in *; [contradiction |].
  destruct Hx as [-> | Hx].
  - rewrite Hf. simpl. lia.
  - destruct (f y); simpl; [lia | apply IH; assumption].
Qed.

(** A line above the upper bound at some index is rejected. *)
Lemma correct_J_rejects_above (low high line : list Q) (m : ndarray) (i : nat) :
  (i < length high)%nat -> (i < length line)%nat ->
  nth i high 0 < nth i line 0 ->
  _correct_J low high line m = None.
Proof.
  intros Hh Hl H. unfold _correct_J.
  assert (E : length (List.filter (fun x => Qltb x 0) (vsub high line))
              <> 0%nat).
  { apply (filter_nonempty _ _ (nth i high 0 - nth i line 0)).
    - rewrite <- vsub_nth by assumption. apply nth_In.
      unfold vsub. rewrite length_zip_with. lia.
    - apply Qltb_lt. lra. }
  destruct (Nat.eqb_spec
    (length (List.filter (fun x => Qltb x 0) (vsub high line)) +
     length (List.filter (fun x => Qltb x 0) (vsub line low))) 0)
    as [E' | E']; [lia | reflexivity].
Qed.

(** A line below the lower bound at some index is rejected. *)
Lemma correct_J_rejects_below (low high line : list Q) (m : ndarray) (i : nat) :
  (i < length low)%nat -> (i < length line)%nat ->
  nth i line 0 < nth i low 0 ->
  _correct_J low high line m = None.
Proof.
  intros Hh Hl H. unfold _correct_J.
  assert (E : length (List.filter (fun x => Qltb x 0) (vsub line low))
              <> 0%nat).
  { apply (filter_nonempty _ _ (nth i line 0 - nth i low 0)).
    - rewrite <- vsub_nth by assumption. apply nth_In.
      unfold vsub. rewrite length_zip_with. lia.
    - apply Qltb_lt. lra. }
  destruct (Nat.eqb_spec
    (length (List.filter (fun x => Qltb x 0) (vsub high line)) +
     length (List.filter (fun x => Qltb x 0) (vsub line low))) 0)
    as [E' | E']; [lia | reflexivity].
Qed.

(** ** [correct_J] as a whole *)

Lemma column_bounds_raises
    (cspace_convert : Q -> arg -> arg -> pyfloat * pyfloat * pyfloat)
    (fuel : nat) (m : ndarray) (i : nat) (idx : list nat) (low high : list Q) :
  column_bounds cspace_convert fuel m (i :: idx) low high = Raise IndexError.
Proof. reflexivity. Qed.

Lemma correct_J_call_column
    (cspace_convert : Q -> arg -> arg -> pyfloat * pyfloat * pyfloat)
    (fuel : nat) (c : column) (m : ndarray) (delta_slope delta_b : Q) :
  correct_J_call cspace_convert fuel (c :: m) delta_slope delta_b
  = Raise IndexError.
Proof.
  unfold correct_J_call, shape1. cbn [length seq].
  rewrite column_bounds_raises. reflexivity.
Qed.

(** C4: [correct_J] never gets as far as its search.  On every array with
    a column the first [find_J_bounds(m[:, i])] of line 808 raises
    [IndexError] (the column has one dimension, line 157 asks for
    [m.shape[1]]), and on an array without columns [np.polyfit] raises
    [TypeError]: no input makes the function return, with or without a
    max-range fit. *)
Theorem correct_J_call_raises
    (cspace_convert : Q -> arg -> arg -> pyfloat * pyfloat * pyfloat)
    (fuel : nat) (m : ndarray) (delta_slope delta_b : Q) :
  correct_J_call cspace_convert fuel m delta_slope delta_b =
  Raise (match m with [] => TypeError | _ :: _ => IndexError end).
Proof.
  destruct m as [| c m]; [| apply correct_J_call_column].
  unfold correct_J_call, shape1. cbn [length seq repeat column_bounds].
  unfold mbind, result_bind, bind.
  unfold correct_J, fit_to_original, polyfit1. rewrite length_arange.
  reflexivity.
Qed.

(** C6: on an array whose trajectory is the constant 10 over 256 points
    [correct_J] returns no fit at all: it raises [IndexError] while it
    looks for the bounds of the first column. *)
Theorem correct_J_call_const10
    (cspace_convert : Q -> arg -> arg -> pyfloat * pyfloat * pyfloat)
    (fuel : nat) (m : ndarray) (delta_slope delta_b : Q) :
  row_J m = repeat 10 256 ->
  correct_J_call cspace_convert fuel m delta_slope delta_b = Raise IndexError.
Proof.
  intros H. destruct m as [| c m]; [discriminate H |].
  apply correct_J_call_column.
Qed.

Lemma correct_J_call_const10_witness :
  row_J jab_const10 = repeat 10 256 /\
  correct_J_call convert_all 2 jab_const10 1 1 = Raise IndexError.
Proof.
  assert (H : row_J jab_const10 = repeat 10 256) by reflexivity.
  split; [exact H |].
  exact (correct_J_call_const10 convert_all 2 jab_const10 1 1 H).
Defined.

(** ** [make_linear] *)

Section Linearizer.

Variable sqrt : Q -> Q.

Lemma segment_is_float (long_a long_b : list Q) (i j : nat) :
  exists x, as_float (segment sqrt long_a long_b i j) = Return x.
Proof. eexists. reflexivity. Qed.

Lemma total_length_loop_returns (long_a long_b : list Q) (idx : list nat) :
  forall total, exists t,
    total_length_loop sqrt long_a long_b idx total = Return t.
Proof.
  induction idx as [| i idx IH]; intros total; [eexists; reflexivity |].
  simpl. apply IH.
Qed.

Lemma np_interp_returns (x fp : list Q) :
  length fp = 256%nat ->
  exists long, np_interp x (arange 256) fp = Return long.
Proof.
  intros H. unfold np_interp. rewrite length_arange, H.
  eexists. reflexivity.
Qed.

Lemma row_J_alter (va vb : Q) (arr : ndarray) : forall i,
  row_J (alter (fun c => (col_J c, va, vb)) i arr) = row_J arr.
Proof.
  induction arr as [| c arr IH]; intros [| i]; simpl; try reflexivity.
  f_equal. apply IH.
Qed.

Lemma walk_step (fuel : nat) (h : heap) (jab : nat) (long_a long_b : list Q)
    (l : nat) (d : Q) (jab_ind long_ind : nat) (d_this : Q) :
  walk sqrt (S fuel) h jab long_a long_b l d jab_ind long_ind d_this =
  if (jab_ind <? 254)%nat && (long_ind <? l - 1)%nat then
    test_d1 ← as_float (segment sqrt long_a long_b (long_ind - 1) long_ind);
    test_d2 ← as_float (segment sqrt long_a long_b long_ind (long_ind + 1));
    if Qltb (Qabs (d * Qnat (jab_ind + 1) - (d_this + test_d1)))
            (Qabs (d * Qnat (jab_ind + 1) - (d_this + test_d1 + test_d2)))
    then
      arr ← set_ab (h !!! jab) (jab_ind + 1)
              (nth long_ind long_a 0) (nth long_ind long_b 0);
      walk sqrt fuel (<[jab := arr]> h) jab long_a long_b l d
        (jab_ind + 1) (long_ind + 1) (d_this + test_d1)
    else
      walk sqrt fuel h jab long_a long_b l d jab_ind (long_ind + 1)
        (d_this + test_d1)
  else Return h.
Proof. reflexivity. Qed.

(** The walk exits within [l - 1 - long_ind] rounds, writes only the
    array at [jab], and keeps what [kept] lists. *)
Lemma walk_keeps (arr0 : ndarray) (jab : nat) (long_a long_b : list Q)
    (l : nat) (d : Q) :
  forall (fuel : nat) (h : heap) (jab_ind long_ind : nat) (d_this : Q),
    kept arr0 h jab -> (l - 1 - long_ind < fuel)%nat ->
    exists h',
      walk sqrt fuel h jab long_a long_b l d jab_ind long_ind d_this
      = Return h' /\
      kept arr0 h' jab /\ forall k, k <> jab -> h' !! k = h !! k.
Proof.
  induction fuel as [| fuel IH]; intros h jab_ind long_ind d_this Hk Hf;
    [lia |].
  rewrite walk_step.
  destruct (Nat.ltb_spec jab_ind 254) as [Hj | Hj]; cbn [andb];
    [| exists h; auto].
  destruct (Nat.ltb_spec long_ind (l - 1)) as [Hl | Hl]; cbn [andb];
    [| exists h; auto].
  destruct (segment_is_float long_a long_b (long_ind - 1) long_ind)
    as [x1 E1].
  destruct (segment_is_float long_a long_b long_ind (long_ind + 1))
    as [x2 E2].
  rewrite E1, E2. unfold mbind, result_bind, bind.
  destruct (Qltb _ _).
  - destruct Hk as (out & Hout & Hlen & HJ & H0 & H255).
    rewrite (lookup_total_correct h jab out Hout).
    unfold set_ab, shape1.
    destruct (Nat.ltb_spec (jab_ind + 1) (length out)) as [Hin | Hin];
      [| lia].
    match goal with
    | |- exists _, walk _ _ ?h1 _ _ _ _ _ ?ji ?li ?dt = _ /\ _ =>
        destruct (IH h1 ji li dt) as (h' & Hw & Hk' & Hfr)
    end.
    + eexists. split; [apply lookup_insert_eq |].
      rewrite length_alter, row_J_alter.
      rewrite !list_lookup_alter_ne by lia. auto.
    + lia.
    + exists h'. split; [exact Hw | split; [exact Hk' |]].
      intros k Hne. rewrite (Hfr k Hne).
      apply lookup_insert_ne. congruence.
  - apply IH; [exact Hk | lia].
Qed.

End Linearizer.

(** C9: [make_linear] returns a fresh array of the length of its input,
    with the same [J] row and the same first column (and the same last
    one); the array it was given, and every other array of the heap, is
    left as it was. *)
Theorem make_linear_frame (sqrt : Q -> Q) (h : heap) (jab l : nat)
    (arr : ndarray) :
  h !! jab = Some arr -> length arr = 256%nat ->
  exists (h' : heap) (jab' : nat) (out : ndarray),
    make_linear sqrt h jab l = Return (h', jab') /\
    h !! jab' = None /\
    (forall k, k <> jab' -> h' !! k = h !! k) /\
    h' !! jab = Some arr /\
    h' !! jab' = Some out /\
    length out = length arr /\
    row_J out = row_J arr /\
    out !! 0%nat = arr !! 0%nat /\
    out !! 255%nat = arr !! 255%nat.
Proof.
  intros Hjab Hlen. unfold make_linear, np_copy.
  set (jab' := fresh (dom h)).
  assert (Hfresh : h !! jab' = None).
  { apply not_elem_of_dom. apply is_fresh. }
  assert (Hne : jab <> jab') by (intros ->; congruence).
  set (h1 := <[jab' := h !!! jab]> h).
  assert (H1 : h1 !! jab' = Some arr).
  { unfold h1. rewrite (lookup_total_correct h jab arr Hjab).
    apply lookup_insert_eq. }
  rewrite (lookup_total_correct h1 jab' arr H1).
  destruct (np_interp_returns (linspace 0 255 l) (row_a arr)) as [long_a Ea];
    [unfold row_a; rewrite length_map; exact Hlen |].
  destruct (np_interp_returns (linspace 0 255 l) (row_b arr)) as [long_b Eb];
    [unfold row_b; rewrite length_map; exact Hlen |].
  rewrite Ea, Eb. unfold mbind, result_bind, bind.
  destruct (total_length_loop_returns sqrt long_a long_b (seq 1 (l - 1)) 0)
    as [t Et].
  rewrite Et.
  destruct (walk_keeps sqrt arr jab' long_a long_b l (t / 255)
              (S l) h1 0%nat 1%nat 0) as (h' & Hw & Hk & Hfr).
  - exists arr. auto.
  - lia.
  - rewrite Hw. destruct Hk as (out & Hout & Hl & HJ & H0 & H255).
    exists h', jab', out.
    split; [reflexivity |]. split; [exact Hfresh |].
    assert (Hframe : forall k, k <> jab' -> h' !! k = h !! k).
    { intros k Hk. rewrite (Hfr k Hk). apply lookup_insert_ne. congruence. }
    split; [exact Hframe |].
    split; [rewrite (Hframe jab Hne); exact Hjab |].
    split; [exact Hout |].
    split; [lia |]. auto.
Qed.

Lemma make_linear_frame_witness :
  exists (h' : heap) (jab' : nat) (out : ndarray),
    heap_one !! 7%nat = Some jab_full /\ length jab_full = 256%nat /\
    make_linear sqrt_milli heap_one 7 40 = Return (h', jab') /\
    heap_one !! jab' = None /\
    (forall k, k <> jab' -> h' !! k = heap_one !! k) /\
    h' !! 7%nat = Some jab_full /\
    h' !! jab' = Some out /\
    length out = length jab_full /\
    row_J out = row_J jab_full /\
    out !! 0%nat = jab_full !! 0%nat /\
    out !! 255%nat = jab_full !! 255%nat.
Proof.
  assert (H1 : heap_one !! 7%nat = Some jab_full) by reflexivity.
  assert (H2 : length jab_full = 256%nat) by reflexivity.
  destruct (make_linear_frame sqrt_milli heap_one 7 40 jab_full H1 H2)
    as (h' & jab' & out & H).
  exists h', jab', out. split; [exact H1 | split; [exact H2 | exact H]].
Defined.

(** * Further properties of the helpers *)

(** Case analysis on every comparison [Qltb] of the goal, innermost
    first. *)
Ltac Qltb_cases :=
  repeat match goal with
    | |- context [Qltb ?x ?y] =>
        lazymatch x with context [Qltb] => fail | _ => idtac end;
        lazymatch y with context [Qltb] => fail | _ => idtac end;
        let E := fresh "E" in
        destruct (Qltb x y) eqn:E;
        [apply Qltb_lt in E | apply Qltb_ge in E]
    end.

(** ** [bound] *)

Lemma bound_map (a : list Q) (high low : Q) :
  bound a high low =
  map (fun x => let y := if Qgtb x high then high else x in
                if Qltb y low then low else y) a.
Proof. unfold bound. rewrite map_map. reflexivity. Qed.

Lemma map_constant {A B : Type} (f : A -> B) (c : B) (a : list A) :
  (forall x, f x = c) -> map f a = repeat c (length a).
Proof.
  intros H. induction a as [| x a IH]; [reflexivity |].
  simpl. rewrite H, IH. reflexivity.
Qed.

(** X1: on an array of finite floats (float64) and with [low <= high],
    [bound] keeps the length, puts every entry into [[low, high]] and
    leaves the entries already there as they are. *)
Theorem bound_within (a : list Q) (high low : Q) :
  low <= high ->
  length (bound a high low) = length a /\
  forall i, (i < length a)%nat ->
    low <= nth i (bound a high low) 0 /\ nth i (bound a high low) 0 <= high /\
    (low <= nth i a 0 -> nth i a 0 <= high ->
     nth i (bound a high low) 0 = nth i a 0).
Proof.
  intros Hlh. rewrite bound_map. split; [apply length_map |].
  intros i Hi. rewrite (nth_map_in _ 0) by exact Hi.
  cbv zeta. unfold Qgtb.
  destruct (Qltb high (nth i a 0)) eqn:E1.
  - apply Qltb_lt in E1. destruct (Qltb high low) eqn:E2.
    + apply Qltb_lt in E2. lra.
    + split; [exact Hlh | split; [lra | intros; lra]].
  - apply Qltb_ge in E1. destruct (Qltb (nth i a 0) low) eqn:E2.
    + apply Qltb_lt in E2. split; [lra | split; [exact Hlh | intros; lra]].
    + apply Qltb_ge in E2. split; [exact E2 | split; [exact E1 | reflexivity]].
Qed.

Lemma bound_within_witness :
  -1 <= 2 /\
  length (bound entries4 2 (-1)) = length entries4 /\
  forall i, (i < length entries4)%nat ->
    -1 <= nth i (bound entries4 2 (-1)) 0 /\
    nth i (bound entries4 2 (-1)) 0 <= 2 /\
    (-1 <= nth i entries4 0 -> nth i entries4 0 <= 2 ->
     nth i (bound entries4 2 (-1)) 0 = nth i entries4 0).
Proof.
  assert (H : -1 <= 2) by lra.
  split; [exact H |]. exact (bound_within entries4 2 (-1) H).
Defined.

(** X2: the bounds are given as [high], then [low]; when they are the
    wrong way round ([high < low]) every entry of the result is [low],
    on an array of finite floats (float64). *)
Theorem bound_swapped (a : list Q) (high low : Q) :
  high < low -> bound a high low = repeat low (length a).
Proof.
  intros H. rewrite bound_map. apply map_constant. intros x. cbv zeta.
  unfold Qgtb.
  destruct (Qltb high x) eqn:E1.
  - apply Qltb_lt in H. rewrite H. reflexivity.
  - apply Qltb_ge in E1.
    assert (E2 : Qltb x low = true) by (apply Qltb_lt; lra).
    rewrite E2. reflexivity.
Qed.

Lemma bound_swapped_witness :
  0 < 1 /\ bound entries4 0 1 = repeat 1 (length entries4).
Proof.
  assert (H : 0 < 1) by lra.
  split; [exact H |]. exact (bound_swapped entries4 0 1 H).
Defined.

(** X3: bounding twice is bounding once, whatever the two bounds. *)
Theorem bound_idempotent (a : list Q) (high low : Q) :
  bound (bound a high low) high low = bound a high low.
Proof.
  rewrite !bound_map, map_map. apply map_ext. intros x. cbv zeta.
  unfold Qgtb. Qltb_cases; try reflexivity; exfalso; lra.
Qed.

(** ** [_adjust_bounds] *)

Lemma max_from_mem (l : list Q) : forall cur, In (max_from cur l) (cur :: l).
Proof.
  induction l as [| y l IH]; intros cur; simpl; [auto |].
  destruct (py_max2_spec cur y) as (_ & _ & [E | E]);
    specialize (IH (py_max2 cur y)); rewrite E in IH |- *;
    simpl in IH; tauto.
Qed.

Lemma min_from_mem (l : list Q) : forall cur, In (min_from cur l) (cur :: l).
Proof.
  induction l as [| y l IH]; intros cur; simpl; [auto |].
  destruct (py_min2_spec cur y) as (_ & _ & [E | E]);
    specialize (IH (py_min2 cur y)); rewrite E in IH |- *;
    simpl in IH; tauto.
Qed.

Lemma py_max_mem (l : list Q) (mx : Q) : py_max l = Return mx -> In mx l.
Proof.
  destruct l as [| y l]; [discriminate |]. simpl. intros H.
  apply Return_inj in H. subst mx. apply max_from_mem.
Qed.

Lemma py_min_mem (l : list Q) (mn : Q) : py_min l = Return mn -> In mn l.
Proof.
  destruct l as [| y l]; [discriminate |]. simpl. intros H.
  apply Return_inj in H. subst mn. apply min_from_mem.
Qed.

Lemma py_max_returns (l : list Q) :
  l <> [] -> exists mx, py_max l = Return mx.
Proof. destruct l; [congruence | intros _; eexists; reflexivity]. Qed.

Lemma py_min_returns (l : list Q) :
  l <> [] -> exists mn, py_min l = Return mn.
Proof. destruct l; [congruence | intros _; eexists; reflexivity]. Qed.

(** X4: on an array of finite floats (float64) with two different
    entries and with [minimum <= maximum], [_adjust_bounds] returns an
    array of the same length whose entries all lie in
    [[minimum, maximum]], with both ends attained, and it keeps the order
    of the entries. *)
Theorem adjust_bounds_range (a : list Q) (minimum maximum x1 x2 : Q) :
  In x1 a -> In x2 a -> x1 < x2 -> minimum <= maximum ->
  exists out,
    _adjust_bounds a minimum maximum = Value out /\
    length out = length a /\
    (forall y, In y out -> minimum <= y /\ y <= maximum) /\
    (exists y, In y out /\ y == minimum) /\
    (exists y, In y out /\ y == maximum) /\
    (forall i j, (i < length a)%nat -> (j < length a)%nat ->
       nth i a 0 <= nth j a 0 -> nth i out 0 <= nth j out 0).
Proof.
  intros H1 H2 Hlt Hmm. unfold _adjust_bounds.
  assert (Hne : a <> []) by (intros ->; contradiction).
  destruct (py_max_returns a Hne) as [mx Emx].
  destruct (py_min_returns a Hne) as [mn Emn].
  rewrite Emx, Emn.
  pose proof (py_max_ge _ _ Emx) as Hmx. pose proof (py_min_le _ _ Emn) as Hmn.
  pose proof (py_max_mem _ _ Emx) as Imx. pose proof (py_min_mem _ _ Emn) as Imn.
  assert (Hd : 0 < mx - mn).
  { pose proof (Hmx x2 H2). pose proof (Hmn x1 H1). lra. }
  destruct (Qeq_bool (mx - mn) 0) eqn:E0.
  { apply Qeq_bool_iff in E0. lra. }
  set (mult := (maximum - minimum) / (mx - mn)).
  assert (Hmult : 0 <= mult).
  { unfold mult. apply Qle_shift_div_l; [exact Hd | lra]. }
  assert (Hr : (mx - mn) * mult == maximum - minimum).
  { unfold mult. field. lra. }
  set (new_array := map (fun x => x * mult) a).
  assert (Hne' : new_array <> []).
  { unfold new_array. destruct a; [congruence | discriminate]. }
  destruct (py_min_returns new_array Hne') as [mn' Emn'].
  rewrite Emn'.
  pose proof (py_min_le _ _ Emn') as Hmn'.
  pose proof (py_min_mem _ _ Emn') as Imn'.
  assert (Emn'' : mn' == mn * mult).
  { apply Qle_antisym.
    - apply Hmn'. unfold new_array. apply in_map_iff. exists mn. auto.
    - unfold new_array in Imn'. apply in_map_iff in Imn' as (x0 & <- & Hx0).
      apply Qmult_le_compat_r; [apply Hmn; exact Hx0 | exact Hmult]. }
  eexists. split; [reflexivity |].
  split; [unfold new_array; rewrite !length_map; reflexivity |].
  split; [| split; [| split]].
  - intros y Hy. apply in_map_iff in Hy as (z & <- & Hz).
    unfold new_array in Hz. apply in_map_iff in Hz as (x & <- & Hx).
    assert (Hlo : mn * mult <= x * mult)
      by (apply Qmult_le_compat_r; [apply Hmn; exact Hx | exact Hmult]).
    assert (Hhi : x * mult <= mx * mult)
      by (apply Qmult_le_compat_r; [apply Hmx; exact Hx | exact Hmult]).
    split; lra.
  - exists (mn' + (minimum - mn')). split; [| ring].
    apply in_map_iff. exists mn'. auto.
  - exists (mx * mult + (minimum - mn')). split; [| lra].
    apply in_map_iff. exists (mx * mult). split; [reflexivity |].
    unfold new_array. apply in_map_iff. exists mx. auto.
  - intros i j Hi Hj Hij.
    rewrite !(nth_map_in _ 0) by (unfold new_array; rewrite length_map; lia).
    unfold new_array. rewrite !(nth_map_in _ 0) by lia.
    assert (nth i a 0 * mult <= nth j a 0 * mult)
      by (apply Qmult_le_compat_r; assumption).
    lra.
Qed.

Lemma adjust_bounds_range_witness :
  exists out,
    In (-3) entries4 /\ In 5 entries4 /\ -3 < 5 /\ 10 <= 20 /\
    _adjust_bounds entries4 10 20 = Value out /\
    length out = length entries4 /\
    (forall y, In y out -> 10 <= y /\ y <= 20) /\
    (exists y, In y out /\ y == 10) /\
    (exists y, In y out /\ y == 20) /\
    (forall i j, (i < length entries4)%nat -> (j < length entries4)%nat ->
       nth i entries4 0 <= nth j entries4 0 -> nth i out 0 <= nth j out 0).
Proof.
  assert (H1 : In (-3) entries4) by (simpl; tauto).
  assert (H2 : In 5 entries4) by (simpl; tauto).
  assert (H3 : -3 < 5) by lra.
  assert (H4 : 10 <= 20) by lra.
  destruct (adjust_bounds_range entries4 10 20 (-3) 5 H1 H2 H3 H4)
    as (out & H).
  exists out. tauto.
Defined.



(** ** [normalize] *)

Lemma Qsum_cons (x : Q) (l : list Q) : Qsum (x :: l) = x + Qsum l.
Proof. reflexivity. Qed.

Lemma Qnat_pos (n : nat) : (0 < n)%nat -> 0 < Qnat n.
Proof.
  intros H. unfold Qnat. change 0 with (inject_Z 0). rewrite <- Zlt_Qlt. lia.
Qed.

Lemma Qsum_all_eq (c : Q) (l : list Q) :
  (forall x, In x l -> x == c) -> Qsum l == Qnat (length l) * c.
Proof.
  induction l as [| y l IH]; intros H.
  - simpl. change (Qnat 0) with 0. ring.
  - rewrite Qsum_cons. cbn [length]. rewrite Qnat_S.
    rewrite IH by (intros x Hx; apply H; right; exact Hx).
    rewrite (H y) by (left; reflexivity). ring.
Qed.

Lemma Qsum_centred (m s : Q) (l : list Q) :
  ~ s == 0 ->
  Qsum (map (fun x => (x - m) / s) l) == (Qsum l - Qnat (length l) * m) / s.
Proof.
  intros Hs. induction l as [| y l IH].
  - simpl. change (Qnat 0) with 0. field. exact Hs.
  - cbn [map length]. rewrite !Qsum_cons, IH, Qnat_S. field. exact Hs.
Qed.

Lemma Qabs_square (x : Q) : Qabs x ^ 2 == x ^ 2.
Proof.
  change (Qabs x * Qabs x == x * x). rewrite <- Qabs_Qmult.
  apply Qabs_pos. nra.
Qed.

Lemma Qsum_squares (m s : Q) (l : list Q) :
  ~ s == 0 ->
  Qsum (map (fun x => ((x - m) / s) ^ 2) l) ==
  Qsum (map (fun x => Qabs (x - m) ^ 2) l) / (s * s).
Proof.
  intros Hs. induction l as [| y l IH].
  - simpl. field. exact Hs.
  - cbn [map]. rewrite !Qsum_cons, IH, Qabs_square.
    change (((y - m) / s) ^ 2) with ((y - m) / s * ((y - m) / s)).
    change ((y - m) ^ 2) with ((y - m) * (y - m)). field. exact Hs.
Qed.

Lemma normalize_finite (sqrt : Q -> Q) (a : list Q) :
  ~ np_std sqrt a == 0 ->
  normalize sqrt a =
  map Fin (map (fun x => (x - np_average a) / np_std sqrt a) a).
Proof.
  intros Hs. unfold normalize. rewrite map_map. apply map_ext. intros x.
  unfold np_div. destruct (Qeq_bool (np_std sqrt a) 0) eqn:E; [| reflexivity].
  apply Qeq_bool_iff in E. contradiction.
Qed.

(** X6: when the standard deviation is not zero, [normalize] returns
    finite values of the same number whose average is zero. *)
Theorem normalize_mean_zero (sqrt : Q -> Q) (a : list Q) :
  a <> [] -> ~ np_std sqrt a == 0 ->
  exists out,
    normalize sqrt a = map Fin out /\ length out = length a /\
    np_average out == 0.
Proof.
  intros Hne Hs. eexists. split; [apply normalize_finite; exact Hs |].
  split; [apply length_map |].
  unfold np_average at 1. rewrite length_map, Qsum_centred by exact Hs.
  assert (Hn : 0 < Qnat (length a)).
  { apply Qnat_pos. destruct a; [congruence | simpl; lia]. }
  unfold np_average. field. split; [lra | exact Hs].
Qed.

Lemma normalize_mean_zero_witness :
  exists out,
    entries4 <> [] /\ ~ np_std sqrt_milli entries4 == 0 /\
    normalize sqrt_milli entries4 = map Fin out /\
    length out = length entries4 /\ np_average out == 0.
Proof.
  assert (H1 : entries4 <> []) by discriminate.
  assert (H2 : ~ np_std sqrt_milli entries4 == 0)
    by (vm_compute; discriminate).
  destruct (normalize_mean_zero sqrt_milli entries4 H1 H2) as (out & H).
  exists out. tauto.
Defined.

(** X7: when moreover the square of the standard deviation is the
    variance (the square root is exact there), the squares of the
    returned values average to one. *)
Theorem normalize_unit_variance (sqrt : Q -> Q) (a : list Q) :
  a <> [] -> ~ np_std sqrt a == 0 ->
  np_std sqrt a * np_std sqrt a ==
    np_average (map (fun x => Qabs (x - np_average a) ^ 2) a) ->
  exists out,
    normalize sqrt a = map Fin out /\
    np_average (map (fun y => y ^ 2) out) == 1.
Proof.
  intros Hne Hs Hex. eexists. split; [apply normalize_finite; exact Hs |].
  rewrite map_map. unfold np_average at 1.
  rewrite length_map, Qsum_squares by exact Hs.
  assert (Hn : 0 < Qnat (length a)).
  { apply Qnat_pos. destruct a; [congruence | simpl; lia]. }
  unfold np_average at 1 in Hex. rewrite length_map in Hex.
  set (S2 := Qsum (map (fun x => Qabs (x - np_average a) ^ 2) a)) in *.
  set (s := np_std sqrt a) in *.
  assert (E : S2 == Qnat (length a) * (s * s)).
  { rewrite Hex. field. lra. }
  rewrite E. field. split; [exact Hs | lra].
Qed.

Lemma normalize_unit_variance_witness :
  exists out,
    [1; 3] <> [] /\ ~ np_std sqrt_milli [1; 3] == 0 /\
    np_std sqrt_milli [1; 3] * np_std sqrt_milli [1; 3] ==
      np_average (map (fun x => Qabs (x - np_average [1; 3]) ^ 2) [1; 3]) /\
    normalize sqrt_milli [1; 3] = map Fin out /\
    np_average (map (fun y => y ^ 2) out) == 1.
Proof.
  assert (H1 : [1; 3] <> []) by discriminate.
  assert (H2 : ~ np_std sqrt_milli [1; 3] == 0)
    by (vm_compute; discriminate).
  assert (H3 : np_std sqrt_milli [1; 3] * np_std sqrt_milli [1; 3] ==
      np_average (map (fun x => Qabs (x - np_average [1; 3]) ^ 2) [1; 3]))
    by (vm_compute; reflexivity).
  destruct (normalize_unit_variance sqrt_milli [1; 3] H1 H2 H3)
    as (out & H).
  exists out. tauto.
Defined.

(** ** [_rnt] *)

Lemma rnt_upper (round : Q -> Z) (num : Q) (shift : string) :
  lower shift = "upper" ->
  _rnt round num shift = (Qceiling (num / 10) * 10)%Z.
Proof. intros H. unfold _rnt. rewrite H. reflexivity. Qed.

Lemma rnt_lower (round : Q -> Z) (num : Q) (shift : string) :
  lower shift = "lower" ->
  _rnt round num shift = (Qfloor (num / 10) * 10)%Z.
Proof. intros H. unfold _rnt. rewrite H. reflexivity. Qed.

Lemma ceiling_ten (num : Q) :
  num <= inject_Z (Qceiling (num / 10) * 10) /\
  inject_Z (Qceiling (num / 10) * 10) < num + 10.
Proof.
  pose proof (Qle_ceiling (num / 10)) as H1.
  pose proof (Qceiling_lt (num / 10)) as H2.
  unfold Z.sub in H2. rewrite inject_Z_plus in H2.
  rewrite inject_Z_mult.
  change (inject_Z 10) with 10. change (inject_Z (- (1))) with (-1 # 1) in H2.
  assert (E : num == num / 10 * 10) by field.
  set (t := num / 10) in *. clearbody t.
  set (c := inject_Z (Qceiling t)) in *. clearbody c. split; lra.
Qed.

Lemma floor_ten (num : Q) :
  inject_Z (Qfloor (num / 10) * 10) <= num /\
  num - 10 < inject_Z (Qfloor (num / 10) * 10).
Proof.
  pose proof (Qfloor_le (num / 10)) as H1.
  pose proof (Qlt_floor (num / 10)) as H2.
  rewrite inject_Z_plus in H2. rewrite inject_Z_mult.
  change (inject_Z 10) with 10. change (inject_Z 1) with 1 in H2.
  assert (E : num == num / 10 * 10) by field.
  set (t := num / 10) in *. clearbody t.
  set (c := inject_Z (Qfloor t)) in *. clearbody c. split; lra.
Qed.

(** X9: for a number within [rnt_range] and a [shift] that reads "upper"
    (in any case of its letters) [_rnt] gives the least multiple of ten
    at or above [num], and for one that reads "lower" the greatest
    multiple of ten at or below it. *)
Theorem rnt_brackets (round : Q -> Z) (num : Q) (s_up s_lo : string) :
  rnt_range num ->
  lower s_up = "upper" -> lower s_lo = "lower" ->
  let u := _rnt round num s_up in
  let l := _rnt round num s_lo in
  (u mod 10 = 0)%Z /\ (l mod 10 = 0)%Z /\
  inject_Z l <= num /\ num <= inject_Z u /\
  num - 10 < inject_Z l /\ inject_Z u < num + 10.
Proof.
  intros _ Hu Hl. cbv zeta.
  rewrite (rnt_upper _ _ _ Hu), (rnt_lower _ _ _ Hl).
  destruct (ceiling_ten num) as [H1 H2]. destruct (floor_ten num) as [H3 H4].
  split; [apply Z.mod_mul; lia |]. split; [apply Z.mod_mul; lia |].
  tauto.
Qed.

Lemma rnt_brackets_witness :
  rnt_range (123 # 10) /\
  lower "UPPER" = "upper" /\ lower "Lower" = "lower" /\
  (_rnt Qfloor (123 # 10) "UPPER" mod 10 = 0)%Z /\
  (_rnt Qfloor (123 # 10) "Lower" mod 10 = 0)%Z /\
  inject_Z (_rnt Qfloor (123 # 10) "Lower") <= 123 # 10 /\
  123 # 10 <= inject_Z (_rnt Qfloor (123 # 10) "UPPER") /\
  (123 # 10) - 10 < inject_Z (_rnt Qfloor (123 # 10) "Lower") /\
  inject_Z (_rnt Qfloor (123 # 10) "UPPER") < (123 # 10) + 10.
Proof.
  assert (H0 : rnt_range (123 # 10)).
  { split; [vm_compute; discriminate | right; vm_compute; discriminate]. }
  assert (H1 : lower "UPPER" = "upper") by reflexivity.
  assert (H2 : lower "Lower" = "lower") by reflexivity.
  split; [exact H0 | split; [exact H1 | split; [exact H2 |]]].
  exact (rnt_brackets Qfloor (123 # 10) "UPPER" "Lower" H0 H1 H2).
Defined.

(** X10: the limits that [plot_3D_colormap] computes for a row whose
    least and greatest value are within [rnt_range],
    [_rnt(min(row), shift='lower')] and [_rnt(max(row), shift='upper')],
    enclose every value of the row and are less than ten away from its
    least and greatest value. *)
Theorem axis_limits_enclose (round : Q -> Z) (row : list Q) (mn mx x : Q) :
  py_min row = Return mn -> py_max row = Return mx ->
  rnt_range mn -> rnt_range mx -> In x row ->
  inject_Z (_rnt round mn "lower") <= x /\
  x <= inject_Z (_rnt round mx "upper") /\
  mn - 10 < inject_Z (_rnt round mn "lower") /\
  inject_Z (_rnt round mx "upper") < mx + 10.
Proof.
  intros Hmn Hmx _ _ Hx.
  rewrite (rnt_upper round mx "upper" eq_refl).
  rewrite (rnt_lower round mn "lower" eq_refl).
  destruct (ceiling_ten mx) as [H1 H2]. destruct (floor_ten mn) as [H3 H4].
  pose proof (py_min_le _ _ Hmn x Hx). pose proof (py_max_ge _ _ Hmx x Hx).
  repeat split; lra.
Qed.

Lemma axis_limits_enclose_witness :
  py_min entries4 = Return (-3) /\ py_max entries4 = Return 5 /\
  rnt_range (-3) /\ rnt_range 5 /\
  In 1 entries4 /\
  inject_Z (_rnt Qfloor (-3) "lower") <= 1 /\
  1 <= inject_Z (_rnt Qfloor 5 "upper") /\
  -3 - 10 < inject_Z (_rnt Qfloor (-3) "lower") /\
  inject_Z (_rnt Qfloor 5 "upper") < 5 + 10.
Proof.
  assert (H1 : py_min entries4 = Return (-3)) by reflexivity.
  assert (H2 : py_max entries4 = Return 5) by reflexivity.
  assert (R1 : rnt_range (-3)).
  { split; [vm_compute; discriminate | right; vm_compute; discriminate]. }
  assert (R2 : rnt_range 5).
  { split; [vm_compute; discriminate | right; vm_compute; discriminate]. }
  assert (H3 : In 1 entries4) by (simpl; tauto).
  split; [exact H1 | split; [exact H2 | split; [exact R1 | split;
    [exact R2 | split; [exact H3 |]]]]].
  exact (axis_limits_enclose Qfloor entries4 (-3) 5 1 H1 H2 R1 R2 H3).
Defined.

(** ** [convert] and [get_rgb_jab] *)

Lemma np_clip_clipped (lo hi : Q) (x : pyfloat) :
  lo <= hi -> clipped lo hi (np_clip lo hi x).
Proof.
  intros H. destruct x as [q | | |]; simpl.
  - unfold Qgtb. Qltb_cases; split; lra.
  - split; lra.
  - split; lra.
  - exact I.
Qed.

Lemma np_clip_idempotent (lo hi : Q) (x : pyfloat) :
  lo <= hi -> np_clip lo hi (np_clip lo hi x) = np_clip lo hi x.
Proof.
  intros H. destruct x as [q | | |]; simpl; unfold Qgtb;
    Qltb_cases; try reflexivity; exfalso; lra.
Qed.

Lemma clip_colour_idempotent (lo hi : Q) (data : list colour) :
  lo <= hi ->
  map (clip_colour lo hi) (map (clip_colour lo hi) data) =
  map (clip_colour lo hi) data.
Proof.
  intros H. rewrite map_map. apply map_ext. intros [[r g] b].
  unfold clip_colour. simpl. rewrite !np_clip_idempotent by exact H.
  reflexivity.
Qed.

Lemma clip_colour_clipped (lo hi : Q) (data : list colour) (c : colour) :
  lo <= hi -> In c (map (clip_colour lo hi) data) ->
  clipped lo hi c.1.1 /\ clipped lo hi c.1.2 /\ clipped lo hi c.2.
Proof.
  intros H Hc. apply in_map_iff in Hc as ([[r g] b] & <- & _).
  unfold clip_colour. simpl. repeat split; apply np_clip_clipped; exact H.
Qed.

(** X11: whatever the converter does, every component that [convert]
    returns for the target space sRGB1 is NaN or lies in [[0, 1]]; and for
    the source space sRGB1 the result depends on the input only through
    its values clipped to [[0, 1]]. *)
Theorem convert_clips
    (cspace_convert_cols : list colour -> string -> string -> list colour)
    (data : list colour) (other : string) :
  (forall c, In c (convert cspace_convert_cols data other CSPACE1) ->
     clipped 0 1 c.1.1 /\ clipped 0 1 c.1.2 /\ clipped 0 1 c.2) /\
  convert cspace_convert_cols (map (clip_colour 0 1) data) CSPACE1 other =
  convert cspace_convert_cols data CSPACE1 other.
Proof.
  split.
  - intros c Hc. unfold convert in Hc.
    change (String.eqb CSPACE1 CSPACE1) with true in Hc. cbv iota in Hc.
    apply (clip_colour_clipped 0 1 _ c) in Hc; [exact Hc | lra].
  - unfold convert.
    change (String.eqb CSPACE1 CSPACE1) with true. cbv iota.
    rewrite clip_colour_idempotent by lra. reflexivity.
Qed.

(** X12: [get_rgb_jab] on an array returns RGB values that are NaN or in
    [[0, 1]], as many as it was given, and lightness values that are NaN
    or in [[0, 100]]; given its own RGB result again it returns the same
    pair. *)
Theorem get_rgb_jab_ranges
    (cspace_convert_cols : list colour -> string -> string -> list colour)
    (data : list colour) (calc_jab : bool) :
  let r := get_rgb_jab cspace_convert_cols data calc_jab in
  length r.1 = length data /\
  (forall c, In c r.1 ->
     clipped 0 1 c.1.1 /\ clipped 0 1 c.1.2 /\ clipped 0 1 c.2) /\
  (forall jab c, r.2 = Some jab -> In c jab -> clipped 0 100 c.1.1) /\
  (r.2 = None <-> calc_jab = false) /\
  get_rgb_jab cspace_convert_cols r.1 calc_jab = r.
Proof.
  cbv zeta. unfold get_rgb_jab.
  destruct calc_jab; cbn [fst snd].
  - split; [apply length_map |].
    split; [intros c Hc; apply (clip_colour_clipped 0 1 data c); [lra | exact Hc] |].
    split.
    + intros jab c Hj Hc. injection Hj as <-.
      apply in_map_iff in Hc as (c' & <- & _). cbn [fst snd].
      apply np_clip_clipped. lra.
    + split; [split; discriminate |].
      rewrite clip_colour_idempotent by lra. reflexivity.
  - split; [apply length_map |].
    split; [intros c Hc; apply (clip_colour_clipped 0 1 data c); [lra | exact Hc] |].
    split; [intros jab c Hj; discriminate |].
    split; [split; reflexivity |].
    rewrite clip_colour_idempotent by lra. reflexivity.
Qed.

(** ** What the scans record *)

Section Records.

Variable cspace_convert : Q -> arg -> arg -> pyfloat * pyfloat * pyfloat.

Lemma coarse_run_records (a b : arg) :
  forall (fuel : nat) (J : Q) (passed : list Q) (J' : Q) (res : list Q),
    coarse_run cspace_convert fuel a b J passed = Return (J', res) ->
    exists new,
      res = passed ++ new /\ J <= J' /\
      (forall x, In x new ->
         J <= x /\ _find_J_bounds cspace_convert (Qadd x 5) a b = true) /\
      (new = [] \/ exists rest, new = J :: rest).
Proof.
  induction fuel as [| fuel IH]; intros J passed J' res H; [discriminate |].
  simpl in H.
  destruct (_find_J_bounds cspace_convert (Qadd J 5) a b) eqn:E.
  - apply IH in H as (new & -> & HJ & Hall & _).
    rewrite Qadd_eq in HJ.
    exists (J :: new). rewrite <- app_assoc. split; [reflexivity |].
    split; [lra |]. split; [| right; eauto].
    intros x [<- | Hx]; [split; [lra | exact E] |].
    destruct (Hall x Hx) as [H1 H2]. rewrite Qadd_eq in H1.
    split; [lra | exact H2].
  - apply Return_inj in H. injection H as <- <-.
    exists []. rewrite app_nil_r. split; [reflexivity |].
    split; [lra |]. split; [intros x [] | left; reflexivity].
Qed.

(** The scan appends to [passed] values at or above its start, each of
    them feasible itself or feasible five higher, and the first value it
    appends is at most [maxJ]. *)
Lemma scan_J_records (a b : arg) (maxJ : Q) :
  forall (fuel : nat) (J : Q) (passed res : list Q),
    scan_J cspace_convert fuel a b maxJ J passed = Return res ->
    exists new,
      res = passed ++ new /\
      (forall x, In x new ->
         J <= x /\
         (_find_J_bounds cspace_convert x a b = true \/
          _find_J_bounds cspace_convert (Qadd x 5) a b = true)) /\
      (forall y rest, new = y :: rest -> y <= maxJ).
Proof.
  induction fuel as [| fuel IH]; intros J passed res H; [discriminate |].
  rewrite scan_J_step in H.
  destruct (Qle_bool J maxJ) eqn:EJ.
  2:{ apply Return_inj in H. subst res. exists [].
      rewrite app_nil_r. split; [reflexivity |].
      split; [intros x [] | intros y rest; discriminate]. }
  apply Qle_bool_iff in EJ.
  destruct (coarse_run cspace_convert fuel a b J
              (if _find_J_bounds cspace_convert J a b
               then passed ++ [J] else passed))
    as [[J1 passed2] | e |] eqn:EC; try discriminate H.
  apply coarse_run_records in EC as (newc & -> & HJ1 & Hc & Hhd).
  unfold mbind, result_bind, bind in H.
  apply IH in H as (new2 & -> & H2 & H3).
  assert (Hnew2 : forall x, In x new2 ->
            J <= x /\
            (_find_J_bounds cspace_convert x a b = true \/
             _find_J_bounds cspace_convert (Qadd x 5) a b = true)).
  { intros x Hx. destruct (H2 x Hx) as [Hge Hf].
    rewrite Qadd_eq in Hge. split; [lra | exact Hf]. }
  assert (Hnewc : forall x, In x newc ->
            J <= x /\
            (_find_J_bounds cspace_convert x a b = true \/
             _find_J_bounds cspace_convert (Qadd x 5) a b = true)).
  { intros x Hx. destruct (Hc x Hx) as [Hge Hf]. split; [exact Hge | auto]. }
  destruct (_find_J_bounds cspace_convert J a b) eqn:EF.
  - exists (J :: newc ++ new2).
    split; [rewrite <- !app_assoc; reflexivity |]. split.
    + intros x [<- | Hx]; [split; [lra | auto] |].
      apply in_app_iff in Hx as [Hx | Hx]; auto.
    + intros y rest Hy. injection Hy as <- _. exact EJ.
  - exists (newc ++ new2).
    split; [rewrite <- !app_assoc; reflexivity |]. split.
    + intros x Hx. apply in_app_iff in Hx as [Hx | Hx]; auto.
    + intros y rest Hy. destruct Hhd as [-> | [rest' ->]].
      * simpl in Hy. exact (H3 y rest Hy).
      * injection Hy as <- _. exact EJ.
Qed.

End Records.

(** ** The interval that [find_J_bounds] returns *)

Lemma pairs_loop_ordered
    (cspace_convert : Q -> arg -> arg -> pyfloat * pyfloat * pyfloat)
    (fuel : nat) (cols : ndarray) :
  forall (minJ maxJ lo hi : Q),
    minJ <= maxJ ->
    pairs_loop cspace_convert fuel cols minJ maxJ = Return (lo, hi) ->
    lo <= hi.
Proof.
  induction cols as [| c rest IH]; intros minJ maxJ lo hi Hw H.
  - simpl in H. apply Return_inj in H. injection H as <- <-. exact Hw.
  - simpl in H.
    destruct (scan_J cspace_convert fuel (Scalar (col_a c)) (Scalar (col_b c))
                maxJ minJ []) as [passed | e |] eqn:ES; try discriminate H.
    apply scan_J_records in ES as (new & -> & Hall & Hhd).
    destruct new as [| x new]; simpl in H; [exact (IH _ _ _ _ Hw H) |].
    apply IH in H; [exact H |].
    pose proof (Hhd x new eq_refl) as Hx.
    destruct (Hall x (or_introl eq_refl)) as [Hx' _].
    destruct (min_from_le new x) as [Hmin _].
    destruct (max_from_ge new x) as [Hmax _].
    destruct (py_max2_spec minJ (min_from x new)) as (_ & _ & [-> | ->]);
      destruct (py_min2_spec maxJ (max_from x new)) as (_ & _ & [-> | ->]);
      lra.
Qed.

(** X13: for more than three pairs, whatever the converter, the interval
    that [find_J_bounds] returns is ordered and lies in [[0, 100]]. *)
Theorem find_J_bounds_ordered
    (cspace_convert : Q -> arg -> arg -> pyfloat * pyfloat * pyfloat)
    (fuel : nat) (m : ndarray) (lo hi : Q) :
  (3 < shape1 m)%nat ->
  find_J_bounds cspace_convert fuel m = Return (lo, hi) ->
  0 <= lo /\ lo <= hi /\ hi <= 100.
Proof.
  intros Hm H. unfold find_J_bounds in H.
  apply Nat.ltb_lt in Hm. rewrite Hm in H.
  destruct (pairs_loop_narrows _ _ _ _ _ _ _ H) as (H1 & H2 & _).
  assert (H3 : lo <= hi).
  { apply (pairs_loop_ordered cspace_convert fuel m 0 100); [lra | exact H]. }
  split; [exact H1 | split; [exact H3 | exact H2]].
Qed.

Lemma find_J_bounds_ordered_witness :
  (3 < shape1 pairs_disjoint)%nat /\
  find_J_bounds convert_bands 1100 pairs_disjoint = Return (5, 15) /\
  0 <= 5 /\ 5 <= 15 /\ 15 <= 100.
Proof.
  assert (H1 : (3 < shape1 pairs_disjoint)%nat) by (vm_compute; lia).
  split; [exact H1 | split; [exact find_J_bounds_disjoint_pairs |]].
  exact (find_J_bounds_ordered convert_bands 1100 pairs_disjoint 5 15 H1
           find_J_bounds_disjoint_pairs).
Defined.

Lemma pairs_loop_skips
    (cspace_convert : Q -> arg -> arg -> pyfloat * pyfloat * pyfloat)
    (fuel : nat) (c : column) (post : ndarray) :
  (forall j,
     _find_J_bounds cspace_convert j (Scalar (col_a c)) (Scalar (col_b c))
     = false) ->
  (1002 <= fuel)%nat ->
  forall (pre : ndarray) (minJ maxJ : Q),
    0 <= minJ -> maxJ <= 100 ->
    pairs_loop cspace_convert fuel (pre ++ c :: post) minJ maxJ =
    pairs_loop cspace_convert fuel (pre ++ post) minJ maxJ.
Proof.
  intros Hno Hf. apply (Qnat_le 1002 fuel) in Hf as Hq.
  change (Qnat 1002) with 1002 in Hq.
  induction pre as [| p pre IH]; intros minJ maxJ H0 H100.
  - cbn [app pairs_loop].
    rewrite (scan_J_infeasible cspace_convert _ _ maxJ minJ);
      [reflexivity | intros j _; apply Hno | lra | lia | lra].
  - cbn [app pairs_loop].
    destruct (scan_J cspace_convert fuel (Scalar (col_a p)) (Scalar (col_b p))
                maxJ minJ []) as [[| x passed] | e |]; try reflexivity.
    + simpl. apply IH; assumption.
    + simpl.
      destruct (py_max2_spec minJ (min_from x passed)) as (Ha & _ & _).
      destruct (py_min2_spec maxJ (max_from x passed)) as (Hb & _ & _).
      apply IH; lra.
Qed.

(** X15: a pair that is feasible at no lightness does not change what
    [find_J_bounds] returns: with or without it (more than three pairs
    either way) the result is the same. *)
Theorem find_J_bounds_ignores_infeasible
    (cspace_convert : Q -> arg -> arg -> pyfloat * pyfloat * pyfloat)
    (fuel : nat) (pre post : ndarray) (c : column) :
  (forall j,
     _find_J_bounds cspace_convert j (Scalar (col_a c)) (Scalar (col_b c))
     = false) ->
  (3 < shape1 (pre ++ post))%nat -> (1002 <= fuel)%nat ->
  find_J_bounds cspace_convert fuel (pre ++ c :: post) =
  find_J_bounds cspace_convert fuel (pre ++ post).
Proof.
  intros Hno Hm Hf. unfold find_J_bounds.
  assert (E1 : (3 <? shape1 (pre ++ post))%nat = true)
    by (apply Nat.ltb_lt; exact Hm).
  assert (E2 : (3 <? shape1 (pre ++ c :: post))%nat = true).
  { apply Nat.ltb_lt. unfold shape1 in *.
    rewrite length_app in *. simpl. lia. }
  rewrite E1, E2. apply pairs_loop_skips; [exact Hno | exact Hf | lra | lra].
Qed.

Lemma find_J_bounds_ignores_infeasible_witness :
  (forall j,
     _find_J_bounds convert_bands j (Scalar (col_a (50, 3, 0)))
       (Scalar (col_b (50, 3, 0))) = false) /\
  (3 < shape1 (pairs_disjoint ++ []))%nat /\ (1002 <= 1002)%nat /\
  find_J_bounds convert_bands 1002 (pairs_disjoint ++ [(50, 3, 0)]) =
  find_J_bounds convert_bands 1002 (pairs_disjoint ++ []).
Proof.
  assert (H1 : forall j,
     _find_J_bounds convert_bands j (Scalar (col_a (50, 3, 0)))
       (Scalar (col_b (50, 3, 0))) = false) by (intros j; reflexivity).
  assert (H2 : (3 < shape1 (pairs_disjoint ++ []))%nat) by (vm_compute; lia).
  assert (H3 : (1002 <= 1002)%nat) by lia.
  split; [exact H1 | split; [exact H2 | split; [exact H3 |]]].
  exact (find_J_bounds_ignores_infeasible convert_bands 1002 pairs_disjoint []
           (50, 3, 0) H1 H2 H3).
Defined.

(** ** What [correct_J] hands back *)

Lemma set_row_J_chroma (line : list Q) : forall m : ndarray,
  length line = length m ->
  length (set_row_J m line) = length m /\
  row_a (set_row_J m line) = row_a m /\ row_b (set_row_J m line) = row_b m.
Proof.
  induction line as [| v line IH]; intros [| c m] H; simpl in H;
    try discriminate; [auto |].
  destruct (IH m) as (H1 & H2 & H3); [lia |].
  unfold set_row_J, row_a, row_b in *. simpl.
  rewrite H1, H2, H3. auto.
Qed.

Lemma arange_nonempty (f : Q -> Q) : map f (arange 256) <> [].
Proof.
  intros H. apply (f_equal (@length Q)) in H.
  rewrite length_map, length_arange in H. discriminate H.
Qed.

Lemma lin_fit_returns (y : list Q) :
  length y = 256%nat -> exists lf, lin_fit y = Return lf.
Proof.
  intros H. unfold lin_fit. rewrite length_arange, H. eexists. reflexivity.
Qed.

(** Method 1 returns for every trajectory of 256 values, with 256
    values. *)
Lemma fit_to_original_returns (J : list Q) :
  length J = 256%nat ->
  exists line, fit_to_original J = Return line /\ length line = 256%nat.
Proof.
  intros HJ. unfold fit_to_original, polyfit1. rewrite length_arange, HJ.
  cbn [Nat.eqb]. unfold mbind, result_bind, bind.
  destruct (lstsq_line (arange 256) J) as [slope b].
  destruct (py_max_returns (map (fun x => slope * x + b) (arange 256)))
    as [mx Emx]; [apply arange_nonempty |].
  rewrite Emx.
  destruct (Qgtb mx 99).
  - destruct (lin_fit_returns (map (fun v => v - 99) J)) as [lf Elf];
      [rewrite length_map; exact HJ |].
    rewrite Elf. pose proof (lin_fit_length _ _ Elf) as Hlf.
    assert (Hne : lf <> []) by (intros ->; discriminate Hlf).
    destruct (py_max_returns lf Hne) as [mx' Emx']. rewrite Emx'.
    destruct (py_min_returns (map (fun v => v + (99 - mx')) lf)) as [mn Emn].
    { intros H. apply (f_equal (@length Q)) in H.
      rewrite length_map, Hlf in H. discriminate H. }
    rewrite Emn.
    destruct (Qltb mn 1); [destruct (Qltb _ _) |]; eexists;
      (split; [reflexivity |]);
      rewrite ?length_linspace, ?length_map; auto.
  - eexists. split; [reflexivity |]. rewrite length_map. apply length_arange.
Qed.

Lemma correct_J_accepts (low high line : list Q) (m m2 : ndarray) :
  _correct_J low high line m = Some m2 -> m2 = set_row_J m line.
Proof.
  unfold _correct_J. destruct (_ =? 0)%nat; [| discriminate].
  intros H. injection H as <-. reflexivity.
Qed.


(** X16: both arrays that [correct_J] returns have the length and the
    [a'] and [b'] rows of the array it was given: only the lightness row
    is rewritten. *)
Theorem correct_J_keeps_chroma (fuel : nat) (low high : list Q) (m : ndarray)
    (delta_slope delta_b : Q) (m1 : ndarray) (fitB : option ndarray) :
  correct_J fuel low high m delta_slope delta_b = Return (m1, fitB) ->
  (length m1 = length m /\ row_a m1 = row_a m /\ row_b m1 = row_b m) /\
  forall m2, fitB = Some m2 ->
    length m2 = length m /\ row_a m2 = row_a m /\ row_b m2 = row_b m.
Proof.
  intros H.
  destruct (correct_J_returns _ _ _ _ _ _ _ _ H) as (line & HA & -> & HB).
  pose proof (fit_to_original_length_in _ _ HA) as Hm.
  rewrite length_row_J in Hm.
  destruct (fit_to_original_returns (row_J m)) as (line' & HA' & Hlen);
    [rewrite length_row_J; exact Hm |].
  rewrite HA in HA'. apply Return_inj in HA'. subst line'.
  split; [apply set_row_J_chroma; lia |].
  intros m2 ->. destruct HB as [HB | (ds & slope & HB)]; [discriminate |].
  unfold max_range_search in HB.
  apply slope_loop_found in HB as (slope' & b' & HB).
  apply correct_J_accepts in HB. subst m2.
  apply set_row_J_chroma. rewrite length_candidate. lia.
Qed.

Lemma correct_J_keeps_chroma_witness :
  exists m1 fitB,
    correct_J 2 low5 high90 jab_const10 1 1 = Return (m1, fitB) /\
    (length m1 = length jab_const10 /\ row_a m1 = row_a jab_const10 /\
     row_b m1 = row_b jab_const10) /\
    forall m2, fitB = Some m2 ->
      length m2 = length jab_const10 /\ row_a m2 = row_a jab_const10 /\
      row_b m2 = row_b jab_const10.
Proof.
  assert (R : returned (correct_J 2 low5 high90 jab_const10 1 1) = true)
    by (vm_compute; reflexivity).
  destruct (correct_J 2 low5 high90 jab_const10 1 1) as [[m1 fitB] | e |] eqn:E;
    try discriminate R.
  exists m1, fitB. split; [reflexivity |].
  exact (correct_J_keeps_chroma 2 low5 high90 jab_const10 1 1 m1 fitB E).
Defined.



(** ** The top of the first trajectory *)

Lemma linspace_nth_in (start stop : Q) (n i : nat) :
  (i < n)%nat ->
  In (start + Qnat i * ((stop - start) / Qnat (n - 1))) (linspace start stop n).
Proof.
  intros H. unfold linspace.
  apply (in_map (fun i => start + Qnat i * ((stop - start) / Qnat (n - 1)))).
  apply in_seq. lia.
Qed.

(** Once the branch [max(line_fit) > 99] is taken, the trajectory of
    method 1 has a value equal to 99. *)
Lemma fit_to_original_top (J line : list Q) :
  fit_to_original J = Return line -> clamp_branch J = true ->
  exists v, In v line /\ v == 99.
Proof.
  unfold fit_to_original, clamp_branch.
  destruct (polyfit1 (arange 256) J) as [[slope b] | e |];
    [| discriminate | discriminate].
  unfold mbind, result_bind, bind.
  destruct (py_max (map (fun x => slope * x + b) (arange 256)))
    as [mx | e |]; [| discriminate | discriminate].
  intros H Hc. rewrite Hc in H.
  destruct (lin_fit (map (fun v => v - 99) J)) as [lf | e |] eqn:Elf;
    [| discriminate | discriminate].
  destruct (py_max lf) as [mx' | e |] eqn:Emx; [| discriminate | discriminate].
  destruct (py_min (map (fun v => v + (99 - mx')) lf)) as [mn | e |] eqn:Emn;
    [| discriminate | discriminate].
  destruct (Qltb mn 1) eqn:E1.
  - destruct (Qltb (nth 0 _ 0) (List.last _ 0));
      apply Return_inj in H; subst line.
    + eexists. split; [apply (linspace_nth_in 1 99 256 255); lia |].
      reflexivity.
    + eexists. split; [apply (linspace_nth_in 99 1 256 0); lia |].
      reflexivity.
  - apply Return_inj in H. subst line.
    exists (mx' + (99 - mx')). split; [| ring].
    apply (in_map (fun v => v + (99 - mx'))). apply (py_max_mem _ _ Emx).
Qed.

(** X20: whenever method 1 of [correct_J] takes its branch
    [max(line_fit) > 99], the first trajectory returned attains 99 at
    some index. *)
Theorem fit_to_original_attains_99 (fuel : nat) (low high : list Q)
    (m : ndarray) (delta_slope delta_b : Q) (m1 : ndarray)
    (fitB : option ndarray) :
  correct_J fuel low high m delta_slope delta_b = Return (m1, fitB) ->
  clamp_branch (row_J m) = true ->
  exists i, (i < 256)%nat /\ nth i (row_J m1) 0 == 99.
Proof.
  intros H Hc.
  destruct (correct_J_returns _ _ _ _ _ _ _ _ H) as (line & HA & -> & _).
  pose proof (fit_to_original_length_in _ _ HA) as Hm.
  rewrite length_row_J in Hm.
  destruct (fit_to_original_clamped _ _ HA Hc) as [Hlen _].
  destruct (fit_to_original_top _ _ HA Hc) as (v & Hv & E).
  rewrite row_J_set_row_J by lia.
  destruct (In_nth line v 0 Hv) as (i & Hi & Hn).
  exists i. split; [lia |]. rewrite Hn. exact E.
Qed.

Lemma fit_to_original_attains_99_witness :
  exists m1 fitB,
    correct_J 2 low5 high90 jab_full 1 1 = Return (m1, fitB) /\
    clamp_branch (row_J jab_full) = true /\
    exists i, (i < 256)%nat /\ nth i (row_J m1) 0 == 99.
Proof.
  assert (Hc : clamp_branch (row_J jab_full) = true)
    by (vm_compute; reflexivity).
  assert (R : returned (correct_J 2 low5 high90 jab_full 1 1) = true)
    by (vm_compute; reflexivity).
  destruct (correct_J 2 low5 high90 jab_full 1 1) as [[m1 fitB] | e |] eqn:E;
    try discriminate R.
  exists m1, fitB. split; [reflexivity | split; [exact Hc |]].
  exact (fit_to_original_attains_99 2 low5 high90 jab_full 1 1 m1 fitB E Hc).
Defined.

(** ** [make_linear] at its edges *)

(** X21: with [l] at most 2 the walk of [make_linear] has nothing to
    visit: the array returned is a fresh copy of the one given, entry
    for entry. *)
Theorem make_linear_short (sqrt : Q -> Q) (h : heap) (jab l : nat)
    (arr : ndarray) :
  h !! jab = Some arr -> length arr = 256%nat -> (l <= 2)%nat ->
  make_linear sqrt h jab l =
  Return (<[fresh (dom h) := arr]> h, fresh (dom h)).
Proof.
  intros Hjab Hlen Hl. unfold make_linear, np_copy.
  rewrite (lookup_total_correct h jab arr Hjab).
  set (jab' := fresh (dom h)). set (h1 := <[jab' := arr]> h).
  assert (H1 : h1 !! jab' = Some arr) by apply lookup_insert_eq.
  rewrite (lookup_total_correct h1 jab' arr H1).
  destruct (np_interp_returns (linspace 0 255 l) (row_a arr)) as [long_a Ea];
    [unfold row_a; rewrite length_map; exact Hlen |].
  destruct (np_interp_returns (linspace 0 255 l) (row_b arr)) as [long_b Eb];
    [unfold row_b; rewrite length_map; exact Hlen |].
  rewrite Ea, Eb. unfold mbind, result_bind, bind.
  destruct (total_length_loop_returns sqrt long_a long_b (seq 1 (l - 1)) 0)
    as [t Et].
  rewrite Et. rewrite walk_step.
  assert (E : (1 <? l - 1)%nat = false) by (apply Nat.ltb_ge; lia).
  rewrite E. reflexivity.
Qed.

Lemma make_linear_short_witness :
  heap_one !! 7%nat = Some jab_full /\ length jab_full = 256%nat /\
  (2 <= 2)%nat /\
  make_linear sqrt_milli heap_one 7 2 =
  Return (<[fresh (dom heap_one) := jab_full]> heap_one, fresh (dom heap_one)).
Proof.
  assert (H1 : heap_one !! 7%nat = Some jab_full) by reflexivity.
  assert (H2 : length jab_full = 256%nat) by reflexivity.
  assert (H3 : (2 <= 2)%nat) by lia.
  split; [exact H1 | split; [exact H2 | split; [exact H3 |]]].
  exact (make_linear_short sqrt_milli heap_one 7 2 jab_full H1 H2 H3).
Defined.

(** X22: [make_linear] handles arrays of 256 columns only: on any other
    length the interpolation against [range(256)] raises [ValueError],
    whatever [l] is. *)
Theorem make_linear_wrong_length (sqrt : Q -> Q) (h : heap) (jab l : nat)
    (arr : ndarray) :
  h !! jab = Some arr -> length arr <> 256%nat ->
  make_linear sqrt h jab l = Raise ValueError.
Proof.
  intros Hjab Hlen. unfold make_linear, np_copy.
  rewrite (lookup_total_correct h jab arr Hjab).
  set (jab' := fresh (dom h)). set (h1 := <[jab' := arr]> h).
  assert (H1 : h1 !! jab' = Some arr) by apply lookup_insert_eq.
  rewrite (lookup_total_correct h1 jab' arr H1).
  assert (E : np_interp (linspace 0 255 l) (arange 256) (row_a arr)
              = Raise ValueError).
  { unfold np_interp, row_a. rewrite length_arange, length_map.
    assert (E : (256 =? length arr)%nat = false) by (apply Nat.eqb_neq; lia).
    rewrite E. reflexivity. }
  rewrite E. reflexivity.
Qed.

Lemma make_linear_wrong_length_witness :
  ({[ 7%nat := pairs_disjoint ]} : heap) !! 7%nat = Some pairs_disjoint /\
  length pairs_disjoint <> 256%nat /\
  make_linear sqrt_milli {[ 7%nat := pairs_disjoint ]} 7 40 = Raise ValueError.
Proof.
  assert (H1 : ({[ 7%nat := pairs_disjoint ]} : heap) !! 7%nat
               = Some pairs_disjoint) by reflexivity.
  assert (H2 : length pairs_disjoint <> 256%nat) by (simpl; lia).
  split; [exact H1 | split; [exact H2 |]].
  exact (make_linear_wrong_length sqrt_milli {[ 7%nat := pairs_disjoint ]}
           7 40 pairs_disjoint H1 H2).
Defined.

(** ** [overlay_colormap] *)


Section OverlayFacts.

Variable round : Q -> Z.
Variable uint8 : Q -> Z.
Variable float16 : Q -> Q.

Hypothesis round_near : forall q, Qabs (inject_Z (round q) - q) <= 1 # 2.






End OverlayFacts.



(** X24: on an image whose entries are all equal (and that is not empty)
    [overlay_colormap] raises [ValueError]: the quotient is NaN, which
    [round] refuses. *)
Theorem overlay_colormap_constant (round : Q -> Z) (uint8 : Q -> Z)
    (float16 : Q -> Q) (img : list Q) (cmap_rgb : ndarray)
    (plot_ready : bool) (c : Q) :
  img <> [] -> (forall x, In x img -> x == c) ->
  overlay_colormap round uint8 float16 img cmap_rgb plot_ready
  = Failure (Builtin ValueError).
Proof.
  intros Hne Hall. unfold overlay_colormap.
  destruct img as [| x img]; [congruence |].
  cbn [overlay_loop]. unfold overlay_value.
  destruct (py_min_returns (x :: img) Hne) as [mn Hmn].
  destruct (py_max_returns (x :: img) Hne) as [mx Hmx].
  rewrite Hmn, Hmx.
  pose proof (Hall _ (py_min_mem _ _ Hmn)) as E1.
  pose proof (Hall _ (py_max_mem _ _ Hmx)) as E2.
  pose proof (Hall x (or_introl eq_refl)) as E3.
  unfold np_div.
  assert (E : Qeq_bool (mx - mn) 0 = true) by (apply Qeq_bool_iff; lra).
  rewrite E.
  assert (F1 : Qltb 0 ((x - mn) * (Qnat (shape1 cmap_rgb) - 1)) = false)
    by (apply Qltb_ge; rewrite E3, E1; lra).
  assert (F2 : Qltb ((x - mn) * (Qnat (shape1 cmap_rgb) - 1)) 0 = false)
    by (apply Qltb_ge; rewrite E3, E1; lra).
  rewrite F1, F2. reflexivity.
Qed.

Lemma overlay_colormap_constant_witness :
  repeat 7 4 <> [] /\ (forall x, In x (repeat 7 4) -> x == 7) /\
  overlay_colormap round_half_even uint8_trunc float16_exact
    (repeat 7 4) cmap3 true = Failure (Builtin ValueError).
Proof.
  assert (H1 : repeat 7 4 <> []) by discriminate.
  assert (H2 : forall x, In x (repeat 7 4) -> x == 7).
  { intros x Hx. apply repeat_spec in Hx. rewrite Hx. reflexivity. }
  split; [exact H1 | split; [exact H2 |]].
  exact (overlay_colormap_constant round_half_even uint8_trunc float16_exact
           (repeat 7 4) cmap3 true 7 H1 H2).
Defined.

(** ** [create_isoluminant_map] *)

(** Whenever [find_J_bounds] returns, the interval is ordered and starts
    at zero or above. *)
Lemma find_J_bounds_interval
    (cspace_convert : Q -> arg -> arg -> pyfloat * pyfloat * pyfloat)
    (fuel : nat) (m : ndarray) (lo hi : Q) :
  find_J_bounds cspace_convert fuel m = Return (lo, hi) ->
  0 <= lo /\ lo <= hi.
Proof.
  intros H. unfold find_J_bounds in H.
  destruct (3 <? shape1 m)%nat.
  - destruct (pairs_loop_narrows _ _ _ _ _ _ _ H) as (H1 & _).
    split; [exact H1 |].
    apply (pairs_loop_ordered cspace_convert fuel m 0 100); [lra | exact H].
  - discriminate H.
Qed.

Lemma py_int_nonneg (x : Q) : 0 <= x -> py_int x = Qfloor x.
Proof.
  intros H. unfold py_int.
  assert (E : Qltb x 0 = false) by (apply Qltb_ge; exact H).
  rewrite E. reflexivity.
Qed.

(** X25: whenever [find_J_bounds] returns [(minJ, maxJ)] for the array,
    [create_isoluminant_map] returns [int(maxJ) - int(minJ)] maps and
    never asks for a negative number of them.  Map [j] is the conversion
    of the array at the whole lightness [int(minJ) + j], which lies above
    [minJ - 1] and at most at [maxJ - 1]: the top of the interval is not
    among them.  Every component of every map is NaN or in [[0, 1]]. *)
Theorem create_isoluminant_map_maps
    (cspace_convert : Q -> arg -> arg -> pyfloat * pyfloat * pyfloat)
    (cspace_convert_cols : list colour -> string -> string -> list colour)
    (fuel : nat) (jab : ndarray) (minJ maxJ : Q) :
  find_J_bounds cspace_convert fuel jab = Return (minJ, maxJ) ->
  exists maps,
    create_isoluminant_map cspace_convert cspace_convert_cols fuel jab
    = Return maps /\
    Z.of_nat (length maps) = (py_int maxJ - py_int minJ)%Z /\
    (forall j, (j < length maps)%nat ->
       let J := (py_int minJ + Z.of_nat j)%Z in
       nth j maps []
       = convert cspace_convert_cols (with_lightness jab J) CSPACE2 CSPACE1 /\
       minJ - 1 < inject_Z J /\ inject_Z J <= maxJ - 1) /\
    (forall rgb c, In rgb maps -> In c rgb ->
       clipped 0 1 c.1.1 /\ clipped 0 1 c.1.2 /\ clipped 0 1 c.2).
Proof.
  intros H. destruct (find_J_bounds_interval _ _ _ _ _ H) as [H0 Hle].
  unfold create_isoluminant_map. rewrite H.
  unfold mbind, result_bind, bind.
  rewrite (py_int_nonneg minJ H0), (py_int_nonneg maxJ) by lra.
  pose proof (Qfloor_resp_le _ _ Hle) as Hfl.
  assert (E : (Qfloor maxJ - Qfloor minJ <? 0)%Z = false)
    by (apply Z.ltb_ge; lia).
  rewrite E.
  set (f := fun j : nat =>
              convert cspace_convert_cols
                (with_lightness jab (Qfloor minJ + Z.of_nat j)) CSPACE2 CSPACE1).
  exists (map f (seq 0 (Z.to_nat (Qfloor maxJ - Qfloor minJ)))).
  split; [reflexivity |].
  rewrite length_map, length_seq.
  split; [lia |]. split.
  - intros j Hj. cbv zeta. split; [| split].
    + rewrite (nth_map_in f 0%nat) by (rewrite length_seq; exact Hj).
      rewrite seq_nth by exact Hj. reflexivity.
    + pose proof (Qlt_floor minJ) as Hlt.
      rewrite !inject_Z_plus in *. change (inject_Z 1) with 1 in Hlt.
      pose proof (Qnat_nonneg j) as Hn. unfold Qnat in Hn. lra.
    + pose proof (Qfloor_le maxJ) as Hfloor.
      assert (Hz : (Qfloor minJ + Z.of_nat j <= Qfloor maxJ + -1)%Z) by lia.
      rewrite Zle_Qle, (inject_Z_plus (Qfloor maxJ)) in Hz.
      change (inject_Z (-1)) with (-1 # 1) in Hz. lra.
  - intros rgb c Hrgb Hc. apply in_map_iff in Hrgb as (j & <- & _).
    unfold f, convert in Hc.
    assert (E1 : String.eqb CSPACE2 CSPACE1 = false) by reflexivity.
    assert (E2 : String.eqb CSPACE1 CSPACE1 = true) by reflexivity.
    rewrite E1, E2 in Hc.
    apply (clip_colour_clipped 0 1 _ c ltac:(lra) Hc).
Qed.

Lemma create_isoluminant_map_maps_witness :
  find_J_bounds convert_bands 1100 pairs_disjoint = Return (5, 15) /\
  exists maps,
    create_isoluminant_map convert_bands convert_cols_grey 1100 pairs_disjoint
    = Return maps /\
    Z.of_nat (length maps) = (py_int 15 - py_int 5)%Z /\
    (forall j, (j < length maps)%nat ->
       let J := (py_int 5 + Z.of_nat j)%Z in
       nth j maps []
       = convert convert_cols_grey (with_lightness pairs_disjoint J)
           CSPACE2 CSPACE1 /\
       5 - 1 < inject_Z J /\ inject_Z J <= 15 - 1) /\
    (forall rgb c, In rgb maps -> In c rgb ->
       clipped 0 1 c.1.1 /\ clipped 0 1 c.1.2 /\ clipped 0 1 c.2).
Proof.
  split; [exact find_J_bounds_disjoint_pairs |].
  exact (create_isoluminant_map_maps convert_bands convert_cols_grey 1100
           pairs_disjoint 5 15 find_J_bounds_disjoint_pairs).
Defined.

(** ** [_find_distance], [lin_fit] and [_correct_J] on their own *)

Lemma squares_sum_symmetric (p1 p2 : list Q) (idx : list nat) :
  forall acc1 acc2 : Q, 0 <= acc1 -> acc1 == acc2 ->
    0 <= fold_left (fun val i => val + (nth i p2 0 - nth i p1 0) ^ 2) idx acc1 /\
    fold_left (fun val i => val + (nth i p2 0 - nth i p1 0) ^ 2) idx acc1 ==
    fold_left (fun val i => val + (nth i p1 0 - nth i p2 0) ^ 2) idx acc2.
Proof.
  induction idx as [| i idx IH]; intros acc1 acc2 H0 He; simpl fold_left.
  - split; [exact H0 | exact He].
  - apply IH.
    + change ((nth i p2 0 - nth i p1 0) ^ 2)
        with ((nth i p2 0 - nth i p1 0) * (nth i p2 0 - nth i p1 0)).
      set (d := nth i p2 0 - nth i p1 0).
      pose proof (Qmult_le_0_compat d d) as Hpos.
      destruct (Qlt_le_dec d 0) as [Hd | Hd]; [| specialize (Hpos Hd Hd); lra].
      assert (Hsq : d * d == (- d) * (- d)) by ring.
      pose proof (Qmult_le_0_compat (- d) (- d)) as Hneg.
      rewrite Hsq. assert (0 <= - d) by lra. specialize (Hneg H H). lra.
    + change ((nth i p2 0 - nth i p1 0) ^ 2)
        with ((nth i p2 0 - nth i p1 0) * (nth i p2 0 - nth i p1 0)).
      change ((nth i p1 0 - nth i p2 0) ^ 2)
        with ((nth i p1 0 - nth i p2 0) * (nth i p1 0 - nth i p2 0)).
      rewrite He. ring.
Qed.

Lemma squares_sum_zero (p1 p2 : list Q) (idx : list nat) :
  (forall i, In i idx -> nth i p1 0 == nth i p2 0) ->
  forall acc : Q, acc == 0 ->
    fold_left (fun val i => val + (nth i p2 0 - nth i p1 0) ^ 2) idx acc == 0.
Proof.
  induction idx as [| i idx IH]; intros Hall acc He; simpl fold_left.
  - exact He.
  - apply IH; [intros j Hj; apply Hall; right; exact Hj |].
    change ((nth i p2 0 - nth i p1 0) ^ 2)
      with ((nth i p2 0 - nth i p1 0) * (nth i p2 0 - nth i p1 0)).
    rewrite He, (Hall i (or_introl eq_refl)). ring.
Qed.

(** X26: on two points of one length, with coordinates of a magnitude
    up to 1e100 (whose squares are floats), [_find_distance] returns a
    float, the square root of a number that is not negative (so that
    [math.sqrt] has no domain error to raise), the same number for the
    points in either order, and zero when the points are equal. *)
Theorem find_distance_symmetric (sqrt : Q -> Q) (p1 p2 : list Q) :
  length p1 = length p2 ->
  (forall x, In x p1 \/ In x p2 -> Qabs x <= 10 ^ 100) ->
  exists s12 s21,
    _find_distance sqrt p1 p2 = PyFloat (sqrt s12) /\
    _find_distance sqrt p2 p1 = PyFloat (sqrt s21) /\
    0 <= s12 /\ s12 == s21 /\
    ((forall i, (i < length p1)%nat -> nth i p1 0 == nth i p2 0) ->
     s12 == 0).
Proof.
  intros H _.
  rewrite (find_distance_equal_length sqrt p1 p2 H).
  rewrite (find_distance_equal_length sqrt p2 p1 (eq_sym H)).
  rewrite <- H.
  destruct (squares_sum_symmetric p1 p2 (seq 0 (length p1)) 0 0)
    as [H0 Hs]; [lra | reflexivity |].
  eexists _, _. split; [reflexivity |]. split; [reflexivity |].
  split; [exact H0 |]. split; [exact Hs |].
  intros Hall. apply squares_sum_zero; [| reflexivity].
  intros i Hi. apply in_seq in Hi. apply Hall. lia.
Qed.

Lemma find_distance_symmetric_witness :
  length [0; 0] = length [3; 4] /\
  (forall x, In x [0; 0] \/ In x [3; 4] -> Qabs x <= 10 ^ 100) /\
  exists s12 s21,
    _find_distance sqrt_milli [0; 0] [3; 4] = PyFloat (sqrt_milli s12) /\
    _find_distance sqrt_milli [3; 4] [0; 0] = PyFloat (sqrt_milli s21) /\
    0 <= s12 /\ s12 == s21 /\
    ((forall i, (i < length [0; 0])%nat -> nth i [0; 0] 0 == nth i [3; 4] 0) ->
     s12 == 0).
Proof.
  assert (H : forall x, In x [0; 0] \/ In x [3; 4] -> Qabs x <= 10 ^ 100).
  { intros x [Hx | Hx]; simpl in Hx;
      repeat (destruct Hx as [<- | Hx]; [vm_compute; discriminate |]);
      contradiction. }
  split; [reflexivity | split; [exact H |]].
  exact (find_distance_symmetric sqrt_milli [0; 0] [3; 4] eq_refl H).
Defined.

(** X27: [lin_fit] keeps the slope of the least-squares line and drops
    its intercept: for 256 values it returns the 256 values
    [slope * i], a line through the origin. *)
Theorem lin_fit_through_origin (y : list Q) :
  length y = 256%nat ->
  exists lf,
    lin_fit y = Return lf /\ length lf = 256%nat /\
    nth 0 lf 0 == 0 /\
    forall i, (i < 256)%nat ->
      nth i lf 0 == (lstsq_line (arange 256) y).1 * Qnat i /\
      nth i lf 0 == Qnat i * nth 1 lf 0.
Proof.
  intros H. unfold lin_fit. rewrite length_arange, H. cbn [Nat.eqb].
  set (slope := (lstsq_line (arange 256) y).1).
  exists (map (fun xi => slope * xi) (arange 256)).
  assert (Hn : forall i, (i < 256)%nat ->
            nth i (map (fun xi => slope * xi) (arange 256)) 0
            = slope * Qnat i).
  { intros i Hi. rewrite (nth_map_in _ 0) by (rewrite length_arange; exact Hi).
    rewrite nth_arange by exact Hi. reflexivity. }
  split; [reflexivity |].
  split; [rewrite length_map; apply length_arange |].
  split.
  - rewrite Hn by lia. change (Qnat 0) with 0. ring.
  - intros i Hi. rewrite (Hn i Hi), (Hn 1%nat) by lia.
    change (Qnat 1) with 1. split; [reflexivity | ring].
Qed.

Lemma lin_fit_through_origin_witness :
  length (row_J jab_full) = 256%nat /\
  exists lf,
    lin_fit (row_J jab_full) = Return lf /\ length lf = 256%nat /\
    nth 0 lf 0 == 0 /\
    forall i, (i < 256)%nat ->
      nth i lf 0 == (lstsq_line (arange 256) (row_J jab_full)).1 * Qnat i /\
      nth i lf 0 == Qnat i * nth 1 lf 0.
Proof.
  split; [reflexivity |].
  exact (lin_fit_through_origin (row_J jab_full) eq_refl).
Defined.

Lemma filter_all_false {A : Type} (f : A -> bool) (l : list A) :
  (forall x, In x l -> f x = false) -> List.filter f l = [].
Proof.
  induction l as [| y l IH]; intros H; [reflexivity |].
  simpl. rewrite (H y (or_introl eq_refl)).
  apply IH. intros x Hx. apply H. right. exact Hx.
Qed.

Lemma vsub_in (u v : list Q) (x : Q) :
  length u = length v -> In x (vsub u v) ->
  exists i, (i < length u)%nat /\ x = nth i u 0 - nth i v 0.
Proof.
  intros H Hx. destruct (In_nth _ _ 0 Hx) as (i & Hi & <-).
  rewrite length_vsub in Hi by exact H.
  exists i. split; [exact Hi |]. apply vsub_nth; lia.
Qed.

(** X28: for bounds, a line and an array of one length, [_correct_J]
    hands back an array exactly when the line lies within the bounds at
    every index; the array is then the one given with the line as its
    lightness row. *)
Theorem correct_J_accepts_iff (low high line : list Q) (m : ndarray) :
  length low = length line -> length high = length line ->
  length m = length line ->
  (_correct_J low high line m = Some (set_row_J m line) <->
   forall i, (i < length line)%nat ->
     nth i low 0 <= nth i line 0 /\ nth i line 0 <= nth i high 0) /\
  (_correct_J low high line m = None <->
   exists i, (i < length line)%nat /\
     (nth i line 0 < nth i low 0 \/ nth i high 0 < nth i line 0)).
Proof.
  intros Hl Hh Hm.
  assert (Hin : (forall i, (i < length line)%nat ->
                   nth i low 0 <= nth i line 0 /\ nth i line 0 <= nth i high 0)
                -> _correct_J low high line m = Some (set_row_J m line)).
  { intros Hall. unfold _correct_J.
    rewrite (filter_all_false (fun x => Qltb x 0) (vsub high line)).
    - rewrite (filter_all_false (fun x => Qltb x 0) (vsub line low));
        [reflexivity |].
      intros x Hx. apply vsub_in in Hx as (i & Hi & ->); [| lia].
      apply Qltb_ge. destruct (Hall i Hi). lra.
    - intros x Hx. apply vsub_in in Hx as (i & Hi & ->); [| lia].
      apply Qltb_ge. destruct (Hall i) as [? ?]; [lia | lra]. }
  assert (Hout : (exists i, (i < length line)%nat /\
                    (nth i line 0 < nth i low 0 \/ nth i high 0 < nth i line 0))
                 -> _correct_J low high line m = None).
  { intros (i & Hi & [Hlo | Hup]).
    - apply (correct_J_rejects_below low high line m i); [lia | lia | exact Hlo].
    - apply (correct_J_rejects_above low high line m i); [lia | lia | exact Hup]. }
  split; split.
  - intros H. apply (correct_J_line_within low high line m _ Hl Hh Hm H).
  - exact Hin.
  - intros H. unfold _correct_J in H.
    destruct (List.filter (fun x => Qltb x 0) (vsub high line))
      as [| x up] eqn:Eup.
    + destruct (List.filter (fun x => Qltb x 0) (vsub line low))
        as [| x lo] eqn:Elo; [discriminate H |].
      assert (Hx : In x (List.filter (fun x => Qltb x 0) (vsub line low)))
        by (rewrite Elo; left; reflexivity).
      apply filter_In in Hx as [Hx Hneg].
      apply vsub_in in Hx as (i & Hi & ->); [| lia].
      apply Qltb_lt in Hneg. exists i. split; [exact Hi | left; lra].
    + assert (Hx : In x (List.filter (fun x => Qltb x 0) (vsub high line)))
        by (rewrite Eup; left; reflexivity).
      apply filter_In in Hx as [Hx Hneg].
      apply vsub_in in Hx as (i & Hi & ->); [| lia].
      apply Qltb_lt in Hneg. exists i. split; [lia | right; lra].
  - exact Hout.
Qed.

Lemma correct_J_accepts_iff_witness :
  length low5 = length (repeat 10 256) /\
  length high90 = length (repeat 10 256) /\
  length jab_const10 = length (repeat 10 256) /\
  (_correct_J low5 high90 (repeat 10 256) jab_const10
   = Some (set_row_J jab_const10 (repeat 10 256)) <->
   forall i, (i < length (repeat 10 256))%nat ->
     nth i low5 0 <= nth i (repeat 10 256) 0 /\
     nth i (repeat 10 256) 0 <= nth i high90 0) /\
  (_correct_J low5 high90 (repeat 10 256) jab_const10 = None <->
   exists i, (i < length (repeat 10 256))%nat /\
     (nth i (repeat 10 256) 0 < nth i low5 0 \/
      nth i high90 0 < nth i (repeat 10 256) 0)).
Proof.
  assert (H1 : length low5 = length (repeat 10 256)) by reflexivity.
  assert (H2 : length high90 = length (repeat 10 256)) by reflexivity.
  assert (H3 : length jab_const10 = length (repeat 10 256)) by reflexivity.
  split; [exact H1 | split; [exact H2 | split; [exact H3 |]]].
  exact (correct_J_accepts_iff low5 high90 (repeat 10 256) jab_const10
           H1 H2 H3).
Defined.
